(** * nesalizerX, SDL backend: frame handoff and input snapshot

    A shallow embedding of [src/sdl_backend.cpp]: the double-buffered frame
    handoff between the emulation thread ([put_pixel], [draw_frame]) and the
    SDL thread ([sdl_thread], [exit_sdl_thread]), and the keyboard snapshot
    with its last-frame copy ([KEY_PRESSED], [KEY_RELEASED],
    [handle_ui_keys], [process_events]).

    File-level globals become fields of one [state] record.  Every function is
    a computation in a small monad that threads the state, may stop the
    process ([assert], [exit]) and logs each synchronisation primitive and
    each access to a shared variable, so that "under the lock" is a checkable
    property of the log. *)

From stdpp Require Import base option list numbers.

Local Open Scope Z_scope.

(** ** Data *)

(** [static Uint32 render_buffers[2][240*256]]: the two pointers
    [front_buffer] and [back_buffer] only ever hold the address of one of the
    two rows. *)
Inductive handle := RB0 | RB1.

(** Where the SDL thread is inside [sdl_thread]. *)
Inductive pc :=
  | Idle              (* at the head of the for (;;) loop *)
  | WaitingForFrame   (* blocked inside SDL_CondWait, frame_lock released *)
  | Woken             (* signalled; SDL_CondWait is about to return *)
  | Presenting        (* past the wait, from process_events to SDL_RenderPresent *)
  | ShuttingDown.     (* returned from sdl_thread *)

Record state := State {
  render_buffers0 : list Z;
  render_buffers1 : list Z;
  front_buffer : handle;
  back_buffer : handle;
  ready_to_draw_new_frame : bool;
  frame_available : bool;
  show_debugger : bool;
  keys : list Z;
  keys_lf : list Z;
  keys_size : Z;
  pending_sdl_thread_exit : bool;
  sdl_pc : pc
}.

#[global] Instance handle_eq_dec : EqDecision handle.
Proof. solve_decision. Defined.

#[global] Instance pc_eq_dec : EqDecision pc.
Proof. solve_decision. Defined.

(** Number of pixels of one render buffer, 240*256. *)
Definition buffer_size : Z := 240 * 256.

Definition pixels (s : state) (h : handle) : list Z :=
  match h with RB0 => render_buffers0 s | RB1 => render_buffers1 s end.

Definition back_pixels (s : state) : list Z := pixels s (back_buffer s).
Definition front_pixels (s : state) : list Z := pixels s (front_buffer s).

(** Field updates. *)
Definition set_pixels (h : handle) (v : list Z) (s : state) : state :=
  match h with
  | RB0 => State v (render_buffers1 s) (front_buffer s) (back_buffer s)
             (ready_to_draw_new_frame s) (frame_available s) (show_debugger s)
             (keys s) (keys_lf s) (keys_size s) (pending_sdl_thread_exit s) (sdl_pc s)
  | RB1 => State (render_buffers0 s) v (front_buffer s) (back_buffer s)
             (ready_to_draw_new_frame s) (frame_available s) (show_debugger s)
             (keys s) (keys_lf s) (keys_size s) (pending_sdl_thread_exit s) (sdl_pc s)
  end.

Definition set_buffers (front back : handle) (s : state) : state :=
  State (render_buffers0 s) (render_buffers1 s) front back
        (ready_to_draw_new_frame s) (frame_available s) (show_debugger s)
        (keys s) (keys_lf s) (keys_size s) (pending_sdl_thread_exit s) (sdl_pc s).

Definition set_ready_to_draw_new_frame (b : bool) (s : state) : state :=
  State (render_buffers0 s) (render_buffers1 s) (front_buffer s) (back_buffer s)
        b (frame_available s) (show_debugger s)
        (keys s) (keys_lf s) (keys_size s) (pending_sdl_thread_exit s) (sdl_pc s).

Definition set_frame_available (b : bool) (s : state) : state :=
  State (render_buffers0 s) (render_buffers1 s) (front_buffer s) (back_buffer s)
        (ready_to_draw_new_frame s) b (show_debugger s)
        (keys s) (keys_lf s) (keys_size s) (pending_sdl_thread_exit s) (sdl_pc s).

Definition set_show_debugger (b : bool) (s : state) : state :=
  State (render_buffers0 s) (render_buffers1 s) (front_buffer s) (back_buffer s)
        (ready_to_draw_new_frame s) (frame_available s) b
        (keys s) (keys_lf s) (keys_size s) (pending_sdl_thread_exit s) (sdl_pc s).

Definition set_keys (k : list Z) (s : state) : state :=
  State (render_buffers0 s) (render_buffers1 s) (front_buffer s) (back_buffer s)
        (ready_to_draw_new_frame s) (frame_available s) (show_debugger s)
        k (keys_lf s) (keys_size s) (pending_sdl_thread_exit s) (sdl_pc s).

Definition set_keys_lf (k : list Z) (s : state) : state :=
  State (render_buffers0 s) (render_buffers1 s) (front_buffer s) (back_buffer s)
        (ready_to_draw_new_frame s) (frame_available s) (show_debugger s)
        (keys s) k (keys_size s) (pending_sdl_thread_exit s) (sdl_pc s).

Definition set_pending_sdl_thread_exit (b : bool) (s : state) : state :=
  State (render_buffers0 s) (render_buffers1 s) (front_buffer s) (back_buffer s)
        (ready_to_draw_new_frame s) (frame_available s) (show_debugger s)
        (keys s) (keys_lf s) (keys_size s) b (sdl_pc s).

Definition set_sdl_pc (p : pc) (s : state) : state :=
  State (render_buffers0 s) (render_buffers1 s) (front_buffer s) (back_buffer s)
        (ready_to_draw_new_frame s) (frame_available s) (show_debugger s)
        (keys s) (keys_lf s) (keys_size s) (pending_sdl_thread_exit s) p.

(** ** Events: what a function does to the shared world, in program order *)

Inductive mutex := frame_lock | event_lock.

Inductive var :=
  | v_front_buffer | v_back_buffer | v_pixels (h : handle)
  | v_ready_to_draw_new_frame | v_frame_available | v_pending_sdl_thread_exit
  | v_show_debugger | v_keys | v_keys_lf | v_keys_size.

(** Calls that leave this file (SDL rendering, the emulator core). *)
Inductive extern :=
  | end_emulation | save_state | load_state | handle_rewind (pushed : Z) | soft_reset
  | corrupt_chance_add (d : Z) | corrupt_chance_sub (d : Z)
  | SDL_UpdateTexture (h : handle) | SDL_RenderCopy | draw_debugger | SDL_RenderPresent.

Inductive event :=
  | EvLock (m : mutex) | EvUnlock (m : mutex)
  | EvCondWait | EvCondWake | EvCondSignal
  | EvRead (v : var) | EvWrite (v : var)
  | EvCall (f : extern).

#[global] Instance mutex_eq_dec : EqDecision mutex.
Proof. solve_decision. Defined.

#[global] Instance var_eq_dec : EqDecision var.
Proof. solve_decision. Defined.

#[global] Instance extern_eq_dec : EqDecision extern.
Proof. solve_decision. Defined.

#[global] Instance event_eq_dec : EqDecision event.
Proof. solve_decision. Defined.

(** [SDL_CondWait(frame_available_cond, frame_lock)] gives up [frame_lock]
    while it blocks and holds it again when it returns. *)
Definition acquires (m : mutex) (e : event) : bool :=
  match e with
  | EvLock m' => bool_decide (m = m')
  | EvCondWake => bool_decide (m = frame_lock)
  | _ => false
  end.

Definition releases (m : mutex) (e : event) : bool :=
  match e with
  | EvUnlock m' => bool_decide (m = m')
  | EvCondWait => bool_decide (m = frame_lock)
  | _ => false
  end.

(** The events of [tr] that happen while [m] is not held; [held] says whether
    [m] is held when [tr] starts. *)
Fixpoint outside (m : mutex) (held : bool) (tr : list event) : list event :=
  match tr with
  | [] => []
  | e :: tr' =>
      if acquires m e then outside m true tr'
      else if releases m e then outside m false tr'
      else if held then outside m held tr'
      else e :: outside m held tr'
  end.

(** Whether [m] is held after [tr]. *)
Fixpoint held_after (m : mutex) (held : bool) (tr : list event) : bool :=
  match tr with
  | [] => held
  | e :: tr' =>
      if acquires m e then held_after m true tr'
      else if releases m e then held_after m false tr'
      else held_after m held tr'
  end.

(** A log of a function entered without [m]: everything it does lies between
    taking and giving up [m], and it leaves with [m] released. *)
Definition under_lock (m : mutex) (tr : list event) : Prop :=
  outside m false tr = [] ∧ held_after m false tr = false.

(** ** The monad *)

Inductive stop :=
  | AssertionFailed        (* assert(...) failed: abort() *)
  | ProcessExit (code : Z) (* exit(code) *)
  | OutOfBounds.           (* an access past the end of an array *)

Inductive res (A : Type) :=
  | Ret (a : A)
  | Stop (r : stop).
Arguments Ret {A} a.
Arguments Stop {A} r.

Definition M (A : Type) : Type := state → res A * state * list event.

#[global] Instance M_ret : MRet M := λ A a s, (Ret a, s, []).

#[global] Instance M_bind : MBind M := λ A B f m s,
  match m s with
  | (Ret a, s1, t1) =>
      match f a s1 with (r, s2, t2) => (r, s2, t1 ++ t2) end
  | (Stop r, s1, t1) => (Stop r, s1, t1)
  end.

Definition result {A} (o : res A * state * list event) : res A := o.1.1.
Definition final {A} (o : res A * state * list event) : state := o.1.2.
Definition log {A} (o : res A * state * list event) : list event := o.2.

Definition emit (e : event) : M unit := λ s, (Ret tt, s, [e]).
Definition halt {A} (r : stop) : M A := λ s, (Stop r, s, []).
Definition load {A} (v : var) (f : state → A) : M A := λ s, (Ret (f s), s, [EvRead v]).
Definition store (v : var) (upd : state → state) : M unit := λ s, (Ret tt, upd s, [EvWrite v]).
Definition goto (p : pc) : M unit := λ s, (Ret tt, set_sdl_pc p s, []).

Definition call (f : extern) : M unit := emit (EvCall f).

Definition assert (b : bool) : M unit := if b then mret tt else halt AssertionFailed.

(** ** SDL primitives *)

Definition SDL_LockMutex (m : mutex) : M unit := emit (EvLock m).
Definition SDL_UnlockMutex (m : mutex) : M unit := emit (EvUnlock m).

(** The SDL thread is the only thread that ever waits on
    [frame_available_cond]: a signal restarts it if it is blocked there and is
    lost otherwise. *)
Definition wake (p : pc) : pc :=
  match p with WaitingForFrame => Woken | _ => p end.

Definition SDL_CondSignal : M unit :=
  λ s, (Ret tt, set_sdl_pc (wake (sdl_pc s)) s, [EvCondSignal]).

Definition SDL_CondWait : M unit :=
  λ s, (Ret tt, set_sdl_pc WaitingForFrame s, [EvCondWait]).

(** ** Video *)

(** [back_buffer[i] = color] *)
Definition write_back_buffer (i : Z) (color : Z) : M unit := λ s,
  let h := back_buffer s in
  if decide (0 ≤ i < Z.of_nat (length (pixels s h))) then
    (Ret tt, set_pixels h (<[Z.to_nat i := color]> (pixels s h)) s,
     [EvRead v_back_buffer; EvWrite (v_pixels h)])
  else (Stop OutOfBounds, s, [EvRead v_back_buffer]).

(** [void put_pixel(unsigned x, unsigned y, uint32_t color)], with [assert]
    compiled in.  [x] and [y] are unsigned, hence in [N]; past the two
    assertions [256*y + x] is below 240*256 and cannot wrap. *)
Definition put_pixel (x y : N) (color : Z) : M unit :=
  assert (x <? 256)%N;;
  assert (y <? 240)%N;;
  write_back_buffer (256 * Z.of_N y + Z.of_N x) color.

(** [swap(back_buffer, front_buffer)] *)
Definition swap_buffers : M unit := λ s,
  (Ret tt, set_buffers (back_buffer s) (front_buffer s) s,
   [EvRead v_back_buffer; EvRead v_front_buffer; EvWrite v_back_buffer; EvWrite v_front_buffer]).

(** [void draw_frame()], built without RECORD_MOVIE. *)
Definition draw_frame : M unit :=
  SDL_LockMutex frame_lock;;
  r ← load v_ready_to_draw_new_frame ready_to_draw_new_frame;
  (if r : bool then
     store v_frame_available (set_frame_available true);;
     swap_buffers;;
     SDL_CondSignal
   else mret tt);;
  SDL_UnlockMutex frame_lock.

(** ** Input *)

(** The values of [SDL_Scancode] that this file uses (SDL_scancode.h). *)
Definition SDL_SCANCODE_D : Z := 7.
Definition SDL_SCANCODE_ESCAPE : Z := 41.
Definition SDL_SCANCODE_BACKSPACE : Z := 42.
Definition SDL_SCANCODE_F3 : Z := 60.
Definition SDL_SCANCODE_F4 : Z := 61.
Definition SDL_SCANCODE_F5 : Z := 62.
Definition SDL_SCANCODE_F8 : Z := 65.
Definition SDL_SCANCODE_LALT : Z := 226.

(** C's [!v] on an integer. *)
Definition lnot (v : Z) : Z := if decide (v = 0) then 1 else 0.

(** [#define KEY_PRESSED(i) ( (keys[i]) & (!keys_lf[i]) )] and
    [#define KEY_RELEASED(i) ( (!keys[i]) & (keys_lf[i]) )], on the two arrays;
    [None] is an index past the end of one of them. *)
Definition KEY_PRESSED (keys keys_lf : list Z) (i : nat) : option Z :=
  k ← keys !! i; l ← keys_lf !! i; Some (Z.land k (lnot l)).

Definition KEY_RELEASED (keys keys_lf : list Z) (i : nat) : option Z :=
  k ← keys !! i; l ← keys_lf !! i; Some (Z.land (lnot k) l).

(** [keys[i]] *)
Definition read_key (i : Z) : M Z := λ s,
  match keys s !! Z.to_nat i with
  | Some k => (Ret k, s, [EvRead v_keys])
  | None => (Stop OutOfBounds, s, [])
  end.

(** [KEY_PRESSED(i)] on the globals. *)
Definition key_pressed (i : Z) : M Z := λ s,
  match KEY_PRESSED (keys s) (keys_lf s) (Z.to_nat i) with
  | Some v => (Ret v, s, [EvRead v_keys; EvRead v_keys_lf])
  | None => (Stop OutOfBounds, s, [])
  end.

(** [if (c) body] on a C integer. *)
Definition when_nonzero (c : Z) (body : M unit) : M unit :=
  if decide (c = 0) then mret tt else body.

(** [memcpy(keys_lf, keys, n * sizeof(Uint8))] *)
Definition memcpy_keys_lf (n : Z) : M unit := λ s,
  if decide (0 ≤ n ∧ n ≤ Z.of_nat (length (keys s)) ∧ n ≤ Z.of_nat (length (keys_lf s))) then
    (Ret tt,
     set_keys_lf (take (Z.to_nat n) (keys s) ++ drop (Z.to_nat n) (keys_lf s)) s,
     [EvRead v_keys; EvWrite v_keys_lf])
  else (Stop OutOfBounds, s, []).

(** [handle_ui_keys], from [SDL_LockMutex(event_lock)] to
    [SDL_UnlockMutex(event_lock)].  [reset_pushed] is a global of another
    file and comes in as an argument. *)
Definition handle_ui_keys_locked (reset_pushed : bool) : M unit :=
  SDL_LockMutex event_lock;;
  esc ← read_key SDL_SCANCODE_ESCAPE;
  when_nonzero esc (halt (ProcessExit 0));;
  f3 ← key_pressed SDL_SCANCODE_F3;
  when_nonzero f3 (call (corrupt_chance_add 0x1000));;
  f4 ← key_pressed SDL_SCANCODE_F4;
  when_nonzero f4 (call (corrupt_chance_sub 0x1000));;
  alt ← read_key SDL_SCANCODE_LALT;
  when_nonzero alt
    (d ← key_pressed SDL_SCANCODE_D;
     when_nonzero d
       (b ← load v_show_debugger show_debugger;
        store v_show_debugger (set_show_debugger (negb b))));;
  f5 ← read_key SDL_SCANCODE_F5;
  (if decide (f5 = 0) then
     f8 ← read_key SDL_SCANCODE_F8;
     when_nonzero f8 (call load_state)
   else call save_state);;
  bs ← read_key SDL_SCANCODE_BACKSPACE;
  call (handle_rewind bs);;
  (if reset_pushed : bool then call soft_reset else mret tt);;
  SDL_UnlockMutex event_lock.

(** The last line of [handle_ui_keys]:
    [if (keys_size) memcpy(keys_lf, keys, keys_size * sizeof(Uint8));] *)
Definition handle_ui_keys_commit : M unit :=
  n ← load v_keys_size keys_size;
  when_nonzero n (memcpy_keys_lf n).

(** [void handle_ui_keys()] *)
Definition handle_ui_keys (reset_pushed : bool) : M unit :=
  handle_ui_keys_locked reset_pushed;;
  handle_ui_keys_commit.

(** ** SDL thread and events *)

(** What [SDL_PollEvent] hands out.  The window geometry ([win_w], [win_h],
    [viewport]) is not part of [state], so a window event changes nothing
    here. *)
Inductive SDL_Event :=
  | SDL_WINDOWEVENT (size_changed : bool)
  | SDL_QUIT
  | SDL_other.

Definition handle_event (e : SDL_Event) : M unit :=
  match e with
  | SDL_WINDOWEVENT _ => mret tt
  | SDL_QUIT =>
      call end_emulation;;
      store v_pending_sdl_thread_exit (set_pending_sdl_thread_exit true)
  | SDL_other => mret tt
  end.

(** [while (SDL_PollEvent(&event)) { ... }] over the queued events. *)
Fixpoint poll_events (queue : list SDL_Event) : M unit :=
  match queue with
  | [] => mret tt
  | e :: queue' => handle_event e;; poll_events queue'
  end.

(** [process_events], built without RUN_TESTS.  [SDL_PollEvent] pumps the
    event queue, which refreshes the array that [keys] points to: [kbd] is
    that array once the queue is drained, [queue] the events delivered. *)
Definition process_events (kbd : list Z) (queue : list SDL_Event) : M unit :=
  SDL_LockMutex event_lock;;
  store v_keys (set_keys kbd);;
  poll_events queue;;
  SDL_UnlockMutex event_lock.

Inductive wait_outcome :=
  | StillWaiting   (* back inside SDL_CondWait *)
  | Shutdown       (* sdl_thread returned *)
  | Frame.         (* a frame was picked up; front_buffer is rendered next *)

(** [!frame_available && !pending_sdl_thread_exit] *)
Definition wait_condition : M bool :=
  fa ← load v_frame_available frame_available;
  if fa : bool then mret false
  else pe ← load v_pending_sdl_thread_exit pending_sdl_thread_exit; mret (negb pe).

(** Lines 214 to 221 of the source, entered with [frame_lock] held: the test
    of the while loop and, when it fails, the code after the loop. *)
Definition wait_check : M wait_outcome :=
  c ← wait_condition;
  if c : bool then
    SDL_CondWait;; mret StillWaiting
  else
    pe ← load v_pending_sdl_thread_exit pending_sdl_thread_exit;
    if pe : bool then
      SDL_UnlockMutex frame_lock;;
      goto ShuttingDown;;
      mret Shutdown
    else
      store v_ready_to_draw_new_frame (set_ready_to_draw_new_frame false);;
      store v_frame_available (set_frame_available false);;
      SDL_UnlockMutex frame_lock;;
      goto Presenting;;
      mret Frame.

(** The head of the loop up to the first test of the wait condition. *)
Definition sdl_thread_wait : M wait_outcome :=
  SDL_LockMutex frame_lock;;
  store v_ready_to_draw_new_frame (set_ready_to_draw_new_frame true);;
  wait_check.

(** [SDL_CondWait] returns, holding [frame_lock] again, and the loop tests
    its condition once more. *)
Definition sdl_thread_wake : M wait_outcome :=
  emit EvCondWake;;
  wait_check.

(** The rest of the loop body, from [process_events()] to
    [SDL_RenderPresent(renderer)].  The SDL calls are taken to succeed
    ([fail_if] does not fire). *)
Definition sdl_thread_present (kbd : list Z) (queue : list SDL_Event) : M unit :=
  process_events kbd queue;;
  h ← load v_front_buffer front_buffer;
  emit (EvRead (v_pixels h));;
  call (SDL_UpdateTexture h);;
  call SDL_RenderCopy;;
  dbg ← load v_show_debugger show_debugger;
  (if dbg : bool then call draw_debugger else mret tt);;
  call SDL_RenderPresent;;
  goto Idle.

(** [void exit_sdl_thread()] *)
Definition exit_sdl_thread : M unit :=
  SDL_LockMutex frame_lock;;
  store v_pending_sdl_thread_exit (set_pending_sdl_thread_exit true);;
  SDL_CondSignal;;
  SDL_UnlockMutex frame_lock.

(** ** Initialization *)

(** The state [init_sdl] leaves behind.  [render_buffers] is static, hence
    zeroed; the file-level flags are zero-initialised; [keys] is SDL's
    keyboard array [kbd]; [keys_lf] comes from [realloc] and holds whatever
    the allocator left there ([lf]). *)
Definition init_sdl (kbd lf : list Z) : state :=
  State (replicate (Z.to_nat buffer_size) 0) (replicate (Z.to_nat buffer_size) 0)
        RB1 RB0 false false false
        kbd lf (Z.of_nat (length kbd)) false Idle.

(** ** The threads as a transition system

    Each label is one uninterrupted piece of code: a whole function of the
    emulation thread, or the part of [sdl_thread] between two points where
    it can be descheduled with [frame_lock] released. *)
Inductive label :=
  | LPutPixel (x y : N) (color : Z)
  | LDrawFrame
  | LExitSdlThread
  | LHandleUiKeysLocked (reset_pushed : bool)
  | LHandleUiKeysCommit
  | LSdlWait
  | LSdlWake
  | LSdlPresent (kbd : list Z) (queue : list SDL_Event)
  | LSpuriousWake.

Definition exec {A} (m : M A) (s : state) : option state :=
  match m s with
  | (Ret _, s', _) => Some s'
  | (Stop _, _, _) => None
  end.

Definition at_pc (p : pc) (s : state) (k : option state) : option state :=
  if decide (sdl_pc s = p) then k else None.

Definition step (l : label) (s : state) : option state :=
  match l with
  | LPutPixel x y color => exec (put_pixel x y color) s
  | LDrawFrame => exec draw_frame s
  | LExitSdlThread => exec exit_sdl_thread s
  | LHandleUiKeysLocked rp => exec (handle_ui_keys_locked rp) s
  | LHandleUiKeysCommit => exec handle_ui_keys_commit s
  | LSdlWait => at_pc Idle s (exec sdl_thread_wait s)
  | LSdlWake => at_pc Woken s (exec sdl_thread_wake s)
  | LSdlPresent kbd queue =>
      if decide (length kbd = length (keys s)) then
        at_pc Presenting s (exec (sdl_thread_present kbd queue) s)
      else None
  | LSpuriousWake => at_pc WaitingForFrame s (Some (set_sdl_pc Woken s))
  end.

Fixpoint run (ls : list label) (s : state) : option state :=
  match ls with
  | [] => Some s
  | l :: ls' => s' ← step l s; run ls' s'
  end.

Inductive reachable : state → Prop :=
  | reachable_init kbd lf :
      length lf = length kbd → reachable (init_sdl kbd lf)
  | reachable_step s l s' :
      reachable s → step l s = Some s' → reachable s'.

(** ** Notions used in the statements and proofs *)

(** Both render buffers have their declared size. *)
Definition buffers_ok (s : state) : Prop :=
  Z.of_nat (length (render_buffers0 s)) = buffer_size ∧
  Z.of_nat (length (render_buffers1 s)) = buffer_size.

(** The two pointers name different buffers. *)
Definition distinct_buffers (s : state) : Prop := back_buffer s ≠ front_buffer s.

(** A small state for examples: two 4-pixel buffers, a 3-key keyboard, the
    SDL thread blocked in its wait. *)
Definition tiny : state :=
  State [0; 0; 0; 0] [0; 0; 0; 0] RB1 RB0 true false false
        [1; 1; 0] [1; 0; 1] 3 false WaitingForFrame.

(** An entry of a key array that is 0 or 1. *)
Definition boolean_valued (v : Z) : Prop := v = 0 ∨ v = 1.

(** The outcome [o] with the events [t] logged before it. *)
Definition after {A} (t : list event) (o : res A * state * list event) :
    res A * state * list event :=
  (result o, final o, t ++ log o).

(** [keeps f m]: running [m] does not change the part [f] of the state,
    whether [m] returns or stops. *)
Definition keeps {T A} (f : state → T) (m : M A) : Prop :=
  ∀ s, f (final (m s)) = f s.

Create HintDb keeps discriminated.

(** The part of the state that the frame handoff is about: both pixel
    arrays, both pointers, the three flags and the SDL thread's position. *)
Definition handoff (s : state) :
    list Z * list Z * handle * handle * bool * bool * bool * pc :=
  (render_buffers0 s, render_buffers1 s, front_buffer s, back_buffer s,
   ready_to_draw_new_frame s, frame_available s, pending_sdl_thread_exit s, sdl_pc s).

(** The same without [pending_sdl_thread_exit] and the position. *)
Definition frame_part (s : state) : list Z * list Z * handle * handle * bool * bool :=
  (render_buffers0 s, render_buffers1 s, front_buffer s, back_buffer s,
   ready_to_draw_new_frame s, frame_available s).

(** Whether the queue holds an [SDL_QUIT]. *)
Definition has_quit (queue : list SDL_Event) : bool :=
  existsb (λ e, match e with SDL_QUIT => true | _ => false end) queue.

(** The state a successful [draw_frame] leaves (see [draw_frame_final]). *)
Definition published (s : state) : state :=
  set_sdl_pc (wake (sdl_pc s))
    (set_buffers (back_buffer s) (front_buffer s) (set_frame_available true s)).

(** The state one test of the wait loop leaves (see [wait_check_final]). *)
Definition tested (s : state) : state :=
  if frame_available s then
    if pending_sdl_thread_exit s then set_sdl_pc ShuttingDown s
    else set_sdl_pc Presenting
           (set_frame_available false (set_ready_to_draw_new_frame false s))
  else
    if pending_sdl_thread_exit s then set_sdl_pc ShuttingDown s
    else set_sdl_pc WaitingForFrame s.

(** The two pointers differ; a frame is only ever available while the SDL
    thread has declared itself ready; the SDL thread has declared itself
    ready exactly while it is in (or past) its wait; and it is only blocked
    while there is neither a frame nor a request to exit. *)
Definition handoff_ok (s : state) : bool :=
  bool_decide (back_buffer s ≠ front_buffer s)
  && implb (frame_available s) (ready_to_draw_new_frame s)
  && match sdl_pc s with
     | Idle | Presenting => negb (ready_to_draw_new_frame s)
     | WaitingForFrame =>
         ready_to_draw_new_frame s && negb (frame_available s)
         && negb (pending_sdl_thread_exit s)
     | Woken | ShuttingDown => ready_to_draw_new_frame s
     end.

(** The SDL thread has reached its wait on a freshly initialised backend. *)
Definition waiting0 : state := tested (set_ready_to_draw_new_frame true (init_sdl [] [])).

(** Once the exit is requested and the SDL thread is out of its wait (woken
    or gone), no step puts it back. *)
Definition leaving (s : state) : bool :=
  pending_sdl_thread_exit s
  && match sdl_pc s with Woken | ShuttingDown => true | _ => false end.

(** A step at which the SDL thread picks a frame up. *)
Definition consumes (l : label) (s' : state) : bool :=
  match l with
  | LSdlWait | LSdlWake => bool_decide (sdl_pc s' = Presenting)
  | _ => false
  end.

(** Runs [ls] provided no step of it picks a frame up, and keeps the pixels
    of the back buffer as they were at the latest call of [draw_frame]
    ([pub] when there was none). *)
Fixpoint run_unconsumed (ls : list label) (s : state) (pub : option (list Z)) :
    option (state * option (list Z)) :=
  match ls with
  | [] => Some (s, pub)
  | l :: ls' =>
      match step l s with
      | None => None
      | Some s' =>
          if consumes l s' then None
          else run_unconsumed ls' s'
                 (match l with LDrawFrame => Some (back_pixels s) | _ => pub end)
      end
  end.

(** A [draw_frame] that finds [ready_to_draw_new_frame] set. *)
Definition hands_off (l : label) (s : state) : bool :=
  match l with LDrawFrame => ready_to_draw_new_frame s | _ => false end.

(** Runs [ls] provided no [draw_frame] in it hands a frame off. *)
Fixpoint run_quiet (ls : list label) (s : state) : option state :=
  match ls with
  | [] => Some s
  | l :: ls' => if hands_off l s then None else s' ← step l s; run_quiet ls' s'
  end.

Definition is_present (l : label) : bool :=
  match l with LSdlPresent _ _ => true | _ => false end.

(** The [put_pixel] calls of a run, in order. *)
Fixpoint writes_of (ls : list label) : list (N * N * Z) :=
  match ls with
  | [] => []
  | LPutPixel x y color :: ls' => (x, y, color) :: writes_of ls'
  | _ :: ls' => writes_of ls'
  end.

Definition apply_write (buf : list Z) (w : N * N * Z) : list Z :=
  <[Z.to_nat (256 * Z.of_N w.1.2 + Z.of_N w.1.1) := w.2]> buf.

(** The pixel array [buf] after the writes [ws], oldest first. *)
Definition apply_writes (ws : list (N * N * Z)) (buf : list Z) : list Z :=
  foldl apply_write buf ws.

(** Pixel [i] of the frame the SDL thread holds once the run [ls] of a
    freshly initialised backend has ended in a pick-up. *)
Definition delivered (ls : list label) (i : nat) : option Z :=
  s ← run ls (init_sdl [] []);
  if decide (sdl_pc s = Presenting) then front_pixels s !! i else None.

(** The positions in [ls], counted from [n], of the [draw_frame] calls that
    hand a frame off. *)
Fixpoint hand_offs (ls : list label) (s : state) (n : nat) : list nat :=
  match ls with
  | [] => []
  | l :: ls' =>
      match step l s with
      | None => []
      | Some s' => (if hands_off l s then [n] else []) ++ hand_offs ls' s' (S n)
      end
  end.

(** Two frames are drawn and shown; only the first had a pixel written, with
    colour [c]. *)
Definition two_frames (c : Z) : list label :=
  [LSdlWait; LPutPixel 0 0 c; LDrawFrame; LSdlWake; LSdlPresent [] [];
   LSdlWait; LDrawFrame; LSdlWake; LSdlPresent [] []; LSdlWait].

(** A third frame: one pixel written, handed off, picked up. *)
Definition third_frame : list label := [LPutPixel 1 0 7; LDrawFrame; LSdlWake].

(** SDL's keyboard array: 512 scancodes, none held. *)
Definition no_keys : list Z := replicate 512 0.

(** The same with F3 held. *)
Definition f3_held : list Z := <[Z.to_nat SDL_SCANCODE_F3 := 1]> no_keys.

(** The backend after [init_sdl], with no key held and a zeroed [keys_lf]. *)
Definition quiet_keyboard : state := init_sdl no_keys no_keys.

(** ** Debug console

    [debug_contents] and [debug_colors] are 128 columns by 60 rows of
    [Uint8]; the cursor and the current colour are [Uint8] too.  These
    globals are apart from the ones of the frame handoff, so they get a
    record of their own. *)

Record console := Console {
  debug_contents : list Z;
  debug_colors : list Z;
  debug_cur_color : Z;
  debug_cur_x : Z;
  debug_cur_y : Z
}.

(** Conversion to [Uint8]. *)
Definition uint8 (v : Z) : Z := v mod 256.

(** [memcpy(a, a + off, n)] inside one array [a], copying byte after byte
    from the lowest address up; [i] is the next byte to write.  The two
    regions overlap; [None] is a read past the end of the array. *)
Fixpoint memcpy_ascending (n i off : nat) (a : list Z) : option (list Z) :=
  match n with
  | O => Some a
  | S n' => v ← a !! (i + off)%nat; memcpy_ascending n' (S i) off (<[i := v]> a)
  end.

(** [void sdldbg_scroll(void)] *)
Definition sdldbg_scroll (k : console) : option console :=
  contents ← memcpy_ascending (Z.to_nat (128 * 59)) 0 128 (debug_contents k);
  colors ← memcpy_ascending (Z.to_nat (128 * 59)) 0 128 (debug_colors k);
  Some (Console contents colors (debug_cur_color k) (debug_cur_x k) (debug_cur_y k)).

(** The test for a printable character, from 32 up to 127. *)
Definition printable (c : Z) : bool := (32 <=? c) && (c <? 128).

(** The first [if] of the loop body of [sdldbg_puts]: store the character
    and the colour at the cursor, then [debug_cur_x++]. *)
Definition store_char (c : Z) (k : console) : option console :=
  let i := debug_cur_y k * 128 + debug_cur_x k in
  if decide (0 ≤ i < Z.of_nat (length (debug_contents k)) ∧
             i < Z.of_nat (length (debug_colors k))) then
    Some (Console (<[Z.to_nat i := c]> (debug_contents k))
                  (<[Z.to_nat i := debug_cur_color k]> (debug_colors k))
                  (debug_cur_color k) (uint8 (debug_cur_x k + 1)) (debug_cur_y k))
  else None.

(** The second [if]: [debug_cur_y++; debug_cur_x = 0;] on LF and CR. *)
Definition newline (c : Z) (k : console) : console :=
  if (c =? 10) || (c =? 13) then
    Console (debug_contents k) (debug_colors k) (debug_cur_color k)
            0 (uint8 (debug_cur_y k + 1))
  else k.

(** The third [if]: bytes from 240 up select the colour. *)
Definition select_color (c : Z) (k : console) : console :=
  if 240 <=? c then
    Console (debug_contents k) (debug_colors k) (uint8 (c - 240))
            (debug_cur_x k) (debug_cur_y k)
  else k.

(** [if (debug_cur_x >= 128) {debug_cur_x = 0; debug_cur_y++;}] *)
Definition wrap_column (k : console) : console :=
  if 128 <=? debug_cur_x k then
    Console (debug_contents k) (debug_colors k) (debug_cur_color k)
            0 (uint8 (debug_cur_y k + 1))
  else k.

(** [if (debug_cur_y >= 60) {sdldbg_scroll(); debug_cur_y = 59;}] *)
Definition wrap_row (k : console) : option console :=
  if 60 <=? debug_cur_y k then
    k' ← sdldbg_scroll k;
    Some (Console (debug_contents k') (debug_colors k') (debug_cur_color k')
                  (debug_cur_x k') 59)
  else Some k.

(** One turn of the [while] loop of [sdldbg_puts], on the character [c]. *)
Definition sdldbg_putc (c : Z) (k : console) : option console :=
  k1 ← (if printable c then store_char c k else Some k);
  wrap_row (wrap_column (select_color c (newline c k1))).

(** [int sdldbg_puts(const char* s)]: [s] holds the bytes of the string as
    [unsigned char]; the string ends at the first 0 or at the end of the
    list.  The result is the returned [int] and the console. *)
Fixpoint sdldbg_puts (s : list Z) (k : console) : option (Z * console) :=
  match s with
  | [] => Some (0, k)
  | c :: s' =>
      if decide (c = 0) then Some (0, k)
      else k' ← sdldbg_putc c k; sdldbg_puts s' k'
  end.

(** [int mvsdldbg_puts(const char* s, const char x, const char y)] *)
Definition mvsdldbg_puts (s : list Z) (x y : Z) (k : console) : option (Z * console) :=
  sdldbg_puts s
    (Console (debug_contents k) (debug_colors k) (debug_cur_color k)
             (uint8 x) (uint8 y)).

(** The console before anything is printed: file-level arrays and
    variables are zeroed. *)
Definition console0 : console :=
  Console (replicate (Z.to_nat (128 * 60)) 0) (replicate (Z.to_nat (128 * 60)) 0) 0 0 0.

(** Both arrays have their declared size, the cursor is on the grid and the
    colour is a [Uint8]. *)
Definition console_ok (k : console) : Prop :=
  Z.of_nat (length (debug_contents k)) = 128 * 60 ∧
  Z.of_nat (length (debug_colors k)) = 128 * 60 ∧
  0 ≤ debug_cur_x k < 128 ∧ 0 ≤ debug_cur_y k < 60 ∧
  0 ≤ debug_cur_color k < 256.

(** An array of 60 rows moved up by one row, the last row staying. *)
Definition scrolled (a : list Z) : list Z :=
  take (Z.to_nat (128 * 59)) (drop 128 a) ++ drop (Z.to_nat (128 * 59)) a.

(** ** Debug overlay of [sdl_thread] *)

Record SDL_Rect := Rect { rect_x : Z; rect_y : Z; rect_w : Z; rect_h : Z }.

(** [charrect] of the character [c]: its cell in the font texture, 16
    glyphs of 5 by 8 pixels per row ([%] and [/] of C). *)
Definition charrect (c : Z) : SDL_Rect :=
  Rect (Z.rem (c - 32) 16 * 5) (Z.quot (c - 32) 16 * 8) 5 8.






(** ** Notions for the keyboard snapshot *)

(** [keys] and [keys_lf] both have [keys_size] entries. *)
Definition keys_ok (s : state) : Prop :=
  Z.of_nat (length (keys s)) = keys_size s ∧
  Z.of_nat (length (keys_lf s)) = keys_size s.

(** All scancodes that [handle_ui_keys] reads are inside [keys]. *)
Definition scancodes_ok (s : state) : Prop :=
  keys_ok s ∧ SDL_SCANCODE_LALT < keys_size s.

(** How often [f] is called in a log. *)
Definition calls (f : extern) (tr : list event) : nat :=
  length (filter (λ e, e = EvCall f) tr).
Arguments calls : simpl never.

(** [hoare P Q m R]: started in a state satisfying [P], the computation [m]
    ends (returning or stopping) in a state satisfying [P], logs only events
    satisfying [Q], and when it returns, returns a value satisfying [R]. *)
Definition hoare {A} (P : state → Prop) (Q : event → Prop) (m : M A) (R : A → Prop) :
    Prop :=
  ∀ s, P s →
    P (final (m s)) ∧ Forall Q (log (m s)) ∧ (∀ a, result (m s) = Ret a → R a).

(** An event that acts on a key edge: a change of [corrupt_chance] or of
    [show_debugger]. *)
Definition edge_action (e : event) : Prop :=
  e = EvWrite v_show_debugger ∨
  ∃ d, e = EvCall (corrupt_chance_add d) ∨ e = EvCall (corrupt_chance_sub d).

(** The last-frame copy agrees with the keyboard and [show_debugger] is [b]. *)
Definition no_edge (b : bool) (s : state) : Prop :=
  keys_lf s = keys s ∧ show_debugger s = b.

#[global] Instance SDL_Event_eq_dec : EqDecision SDL_Event.
Proof. solve_decision. Defined.

(** The number of [SDL_QUIT] events in a queue. *)
Definition quits (queue : list SDL_Event) : nat :=
  length (filter (λ e, e = SDL_QUIT) queue).

(** The SDL thread has only returned after an exit request. *)
Definition returned_on_request (s : state) : bool :=
  match sdl_pc s with ShuttingDown => pending_sdl_thread_exit s | _ => true end.

(** A step of the SDL thread (a spurious wake-up included). *)
Definition is_sdl_step (l : label) : bool :=
  match l with
  | LSdlWait | LSdlWake | LSdlPresent _ _ | LSpuriousWake => true
  | _ => false
  end.

(** The SDL thread has returned after an exit request made while it was
    blocked on a freshly initialised backend. *)
Definition gone0 : state :=
  tested (set_sdl_pc Woken (set_pending_sdl_thread_exit true waiting0)).

(** ** Tactics *)

(** Unfolds the monad and its primitives so that a computation on a
    symbolic state reduces. *)
Ltac unfold_m :=
  unfold mbind, M_bind, mret, M_ret, assert, when_nonzero, load, store, emit, call,
    halt, goto, SDL_LockMutex, SDL_UnlockMutex, SDL_CondSignal, SDL_CondWait,
    swap_buffers, result, final, log in *.

Ltac run_m := unfold_m; cbn in *; repeat (progress (unfold_m; cbn in *)).

Ltac cases_on_state s :=
  let b0 := fresh "b0" in let b1 := fresh "b1" in
  let f := fresh "f" in let b := fresh "b" in
  let r := fresh "r" in let a := fresh "a" in
  let p := fresh "p" in let c := fresh "c" in
  destruct s as [b0 b1 f b r a ? ? ? ? p c];
  destruct f, b, r, a, p, c.

(** * Proofs *)

(** ** Theorems: [draw_frame] *)

Lemma draw_frame_signals (s : state) :
  ready_to_draw_new_frame s = true → EvCondSignal ∈ log (draw_frame s).
Proof.
  intros Hready. unfold draw_frame. run_m. rewrite Hready. cbn.
  rewrite !elem_of_cons. auto 10.
Qed.

(** C1. With [ready_to_draw_new_frame] set, [draw_frame] sets
    [frame_available], exchanges the two buffer pointers and leaves both pixel
    arrays as they are, signals [frame_available_cond] (which restarts the
    SDL thread if it is blocked), and does all of it between
    [SDL_LockMutex(frame_lock)] and [SDL_UnlockMutex(frame_lock)]. *)
Theorem draw_frame_publishes (s : state) :
  ready_to_draw_new_frame s = true →
  let o := draw_frame s in
  result o = Ret tt ∧
  final o = set_sdl_pc (wake (sdl_pc s))
              (set_buffers (back_buffer s) (front_buffer s) (set_frame_available true s)) ∧
  frame_available (final o) = true ∧
  front_buffer (final o) = back_buffer s ∧
  back_buffer (final o) = front_buffer s ∧
  render_buffers0 (final o) = render_buffers0 s ∧
  render_buffers1 (final o) = render_buffers1 s ∧
  front_pixels (final o) = back_pixels s ∧
  back_pixels (final o) = front_pixels s ∧
  sdl_pc (final o) = wake (sdl_pc s) ∧
  log o = [EvLock frame_lock; EvRead v_ready_to_draw_new_frame;
           EvWrite v_frame_available;
           EvRead v_back_buffer; EvRead v_front_buffer;
           EvWrite v_back_buffer; EvWrite v_front_buffer;
           EvCondSignal; EvUnlock frame_lock] ∧
  under_lock frame_lock (log o).
Proof.
  intros Hready o. subst o. unfold draw_frame. run_m. rewrite Hready. cbn.
  unfold under_lock, front_pixels, back_pixels. cbn.
  repeat split; reflexivity.
Qed.

Lemma draw_frame_publishes_witness :
  final (draw_frame tiny) =
    State [0; 0; 0; 0] [0; 0; 0; 0] RB0 RB1 true true false
          [1; 1; 0] [1; 0; 1] 3 false Woken.
Proof.
  pose proof (draw_frame_publishes tiny eq_refl) as (_ & Hfinal & _).
  rewrite Hfinal. reflexivity.
Defined.

(** C2. With [ready_to_draw_new_frame] clear, [draw_frame] returns with the
    state exactly as it found it (pointers, flags, pixels, the SDL thread's
    position): it only takes and gives back [frame_lock], writes no
    variable and does not signal. *)
Theorem draw_frame_drops (s : state) :
  ready_to_draw_new_frame s = false →
  let o := draw_frame s in
  result o = Ret tt ∧
  final o = s ∧
  log o = [EvLock frame_lock; EvRead v_ready_to_draw_new_frame; EvUnlock frame_lock] ∧
  (EvCondSignal ∉ log o) ∧
  (∀ v, EvWrite v ∉ log o).
Proof.
  intros Hready o. subst o. unfold draw_frame. run_m. rewrite Hready. cbn.
  repeat split; try reflexivity.
  - rewrite !elem_of_cons, elem_of_nil. intros [|[|[|[]]]]; discriminate.
  - intros v. rewrite !elem_of_cons, elem_of_nil. intros [|[|[|[]]]]; discriminate.
Qed.

Lemma draw_frame_drops_witness :
  final (draw_frame (set_ready_to_draw_new_frame false tiny)) =
    set_ready_to_draw_new_frame false tiny.
Proof.
  exact (proj1 (proj2 (draw_frame_drops (set_ready_to_draw_new_frame false tiny) eq_refl))).
Defined.

(** ** Theorems: [put_pixel] *)

Lemma put_pixel_in_bounds (x y : N) (color : Z) (s : state) :
  (x < 256)%N → (y < 240)%N → buffers_ok s →
  put_pixel x y color s =
    (Ret tt,
     set_pixels (back_buffer s)
       (<[Z.to_nat (256 * Z.of_N y + Z.of_N x) := color]> (back_pixels s)) s,
     [EvRead v_back_buffer; EvWrite (v_pixels (back_buffer s))]).
Proof.
  intros Hx Hy [H0 H1]. unfold put_pixel, write_back_buffer. run_m.
  apply N.ltb_lt in Hx as Hx'. apply N.ltb_lt in Hy as Hy'. rewrite Hx', Hy'. cbn.
  unfold back_pixels, buffer_size in *.
  destruct (decide _) as [|Hn]; [reflexivity|].
  exfalso. apply Hn. destruct (back_buffer s); cbn; lia.
Qed.

Lemma put_pixel_out_of_bounds (x y : N) (color : Z) (s : state) :
  (256 ≤ x)%N ∨ (240 ≤ y)%N →
  put_pixel x y color s = (Stop AssertionFailed, s, []).
Proof.
  intros H. unfold put_pixel. run_m.
  destruct (x <? 256)%N eqn:Hx; cbn; [|reflexivity].
  destruct (y <? 240)%N eqn:Hy; cbn; [|reflexivity].
  apply N.ltb_lt in Hx, Hy. lia.
Qed.

(** C6. [put_pixel] asks for [x < 256] and [y < 240] (both are unsigned, so
    nothing is below 0).  Inside these bounds, and so at (255, 239), the call
    returns and has stored [color] at [256*y + x] of the back buffer; with
    [x] or [y] past its bound, and so at (256, y) and (x, 240), the
    assertion fails: the call does not return, it stops the process, having
    changed nothing. *)
Theorem put_pixel_bounds (s : state) (color : Z) :
  buffers_ok s →
  (∀ x y, (x < 256)%N → (y < 240)%N →
     result (put_pixel x y color s) = Ret tt ∧
     back_pixels (final (put_pixel x y color s)) !! Z.to_nat (256 * Z.of_N y + Z.of_N x)
       = Some color) ∧
  (result (put_pixel 255 239 color s) = Ret tt ∧
   back_pixels (final (put_pixel 255 239 color s)) !! Z.to_nat 61439 = Some color) ∧
  (∀ x y, (256 ≤ x)%N ∨ (240 ≤ y)%N →
     put_pixel x y color s = (Stop AssertionFailed, s, [])) ∧
  (∀ y, result (put_pixel 256 y color s) = Stop AssertionFailed) ∧
  (∀ x, result (put_pixel x 240 color s) = Stop AssertionFailed) ∧
  (∀ x y, result (put_pixel x y color s) = Ret tt ↔ (x < 256)%N ∧ (y < 240)%N).
Proof.
  intros Hok.
  assert (Hin : ∀ x y, (x < 256)%N → (y < 240)%N →
     result (put_pixel x y color s) = Ret tt ∧
     back_pixels (final (put_pixel x y color s)) !! Z.to_nat (256 * Z.of_N y + Z.of_N x)
       = Some color).
  { intros x y Hx Hy. rewrite (put_pixel_in_bounds x y color s Hx Hy Hok).
    split; [reflexivity|]. unfold final, back_pixels; cbn.
    destruct Hok as [H0 H1]. unfold buffer_size in *.
    destruct s as [b0 b1 f b r a d k kl ks p c]; cbn in *.
    destruct b; cbn; apply list_lookup_insert_eq; lia. }
  split; [exact Hin|].
  split; [exact (Hin 255%N 239%N eq_refl eq_refl)|].
  split; [intros x y H; apply put_pixel_out_of_bounds, H|].
  split; [intros y; rewrite put_pixel_out_of_bounds; [reflexivity|lia]|].
  split; [intros x; rewrite put_pixel_out_of_bounds; [reflexivity|lia]|].
  intros x y. split.
  - intros Hr. destruct (decide ((x < 256)%N ∧ (y < 240)%N)) as [|Hn]; [assumption|].
    rewrite put_pixel_out_of_bounds in Hr by lia. discriminate.
  - intros [Hx Hy]. apply Hin; assumption.
Qed.

Lemma init_sdl_buffers_ok (kbd lf : list Z) : buffers_ok (init_sdl kbd lf).
Proof. split; vm_compute; reflexivity. Qed.

Lemma put_pixel_bounds_witness :
  result (put_pixel 255 239 7 (init_sdl [] [])) = Ret tt ∧
  result (put_pixel 256 239 7 (init_sdl [] [])) = Stop AssertionFailed ∧
  result (put_pixel 255 240 7 (init_sdl [] [])) = Stop AssertionFailed.
Proof.
  assert (Hok : buffers_ok (init_sdl [] [])) by (split; vm_compute; reflexivity).
  destruct (put_pixel_bounds (init_sdl [] []) 7 Hok) as (_ & [Hmax _] & _ & Hx & Hy & _).
  split; [exact Hmax|]. split; [apply Hx|apply Hy].
Defined.

(** C10. An in-bounds [put_pixel] changes the back buffer at index
    [256*y + x] and nowhere else; the front buffer, both pointers, the
    handoff flags and every other field stay as they were. *)
Theorem put_pixel_frame (x y : N) (color : Z) (s : state) :
  (x < 256)%N → (y < 240)%N → buffers_ok s → distinct_buffers s →
  let s' := final (put_pixel x y color s) in
  let i := Z.to_nat (256 * Z.of_N y + Z.of_N x) in
  result (put_pixel x y color s) = Ret tt ∧
  back_pixels s' = <[i := color]> (back_pixels s) ∧
  (i < length (back_pixels s))%nat ∧
  back_pixels s' !! i = Some color ∧
  (∀ j, j ≠ i → back_pixels s' !! j = back_pixels s !! j) ∧
  length (back_pixels s') = length (back_pixels s) ∧
  front_pixels s' = front_pixels s ∧
  front_buffer s' = front_buffer s ∧
  back_buffer s' = back_buffer s ∧
  frame_available s' = frame_available s ∧
  ready_to_draw_new_frame s' = ready_to_draw_new_frame s ∧
  pending_sdl_thread_exit s' = pending_sdl_thread_exit s ∧
  sdl_pc s' = sdl_pc s ∧
  s' = set_pixels (back_buffer s) (<[i := color]> (back_pixels s)) s.
Proof.
  intros Hx Hy Hok Hd s' i. subst s'.
  rewrite (put_pixel_in_bounds x y color s Hx Hy Hok). fold i.
  assert (Hi : (i < length (back_pixels s))%nat).
  { destruct Hok as [H0 H1]. unfold back_pixels, buffer_size in *.
    subst i. destruct (back_buffer s); cbn; lia. }
  unfold distinct_buffers in Hd.
  unfold final, result, back_pixels, front_pixels in *; cbn.
  destruct s as [b0 b1 f b r a d k kl ks p c]; cbn in *.
  destruct b, f; try congruence; cbn in *;
    (repeat split; try reflexivity; try assumption;
     [ apply list_lookup_insert_eq; assumption
     | intros j Hj; apply list_lookup_insert_ne; congruence
     | apply length_insert ]).
Qed.

Lemma put_pixel_frame_witness :
  front_pixels (final (put_pixel 3 2 9 (init_sdl [] []))) = front_pixels (init_sdl [] []) ∧
  back_pixels (final (put_pixel 3 2 9 (init_sdl [] []))) !! Z.to_nat 515 = Some 9.
Proof.
  assert (Hok : buffers_ok (init_sdl [] [])) by (split; vm_compute; reflexivity).
  assert (Hd : distinct_buffers (init_sdl [] [])) by (vm_compute; discriminate).
  destruct (put_pixel_frame 3 2 9 (init_sdl [] []) eq_refl eq_refl Hok Hd)
    as (_ & _ & _ & Hcell & _ & _ & Hfront & _).
  split; [exact Hfront|exact Hcell].
Defined.

(** ** Theorems: edge detection *)

Lemma KEY_PRESSED_lookup (held last : list Z) (i : nat) (h l : Z) :
  held !! i = Some h → last !! i = Some l →
  KEY_PRESSED held last i = Some (Z.land h (lnot l)) ∧
  KEY_RELEASED held last i = Some (Z.land (lnot h) l).
Proof.
  intros Hh Hl. unfold KEY_PRESSED, KEY_RELEASED. rewrite Hh, Hl. split; reflexivity.
Qed.

(** C7. On two key arrays of the same length whose entries are 0 or 1, and
    for every index [i] inside them, [KEY_PRESSED(i)] is nonzero exactly when
    [keys[i]] is set and [keys_lf[i]] is clear, and [KEY_RELEASED(i)] is
    nonzero exactly when [keys[i]] is clear and [keys_lf[i]] is set.  With
    [keys_lf = {1,0,1}] and [keys = {1,1,0}], index 1 is pressed and not
    released, index 2 is released and not pressed, index 0 is neither. *)
Theorem edge_detection :
  (∀ (held last : list Z) (i : nat),
     length held = length last →
     Forall boolean_valued held → Forall boolean_valued last →
     (i < length held)%nat →
     ∃ h l p r,
       held !! i = Some h ∧ last !! i = Some l ∧
       KEY_PRESSED held last i = Some p ∧
       KEY_RELEASED held last i = Some r ∧
       (p ≠ 0 ↔ h = 1 ∧ l = 0) ∧
       (r ≠ 0 ↔ h = 0 ∧ l = 1)) ∧
  (KEY_PRESSED [1; 1; 0] [1; 0; 1] 1 = Some 1 ∧ KEY_RELEASED [1; 1; 0] [1; 0; 1] 1 = Some 0) ∧
  (KEY_PRESSED [1; 1; 0] [1; 0; 1] 2 = Some 0 ∧ KEY_RELEASED [1; 1; 0] [1; 0; 1] 2 = Some 1) ∧
  (KEY_PRESSED [1; 1; 0] [1; 0; 1] 0 = Some 0 ∧ KEY_RELEASED [1; 1; 0] [1; 0; 1] 0 = Some 0).
Proof.
  split; [|repeat split; reflexivity].
  intros held last i Hlen Hheld Hlast Hi.
  destruct (lookup_lt_is_Some_2 held i Hi) as [h Hh].
  assert (Hi' : (i < length last)%nat) by lia.
  destruct (lookup_lt_is_Some_2 last i Hi') as [l Hl].
  destruct (KEY_PRESSED_lookup held last i h l Hh Hl) as [Hp Hr].
  exists h, l, (Z.land h (lnot l)), (Z.land (lnot h) l).
  do 4 (split; [assumption|]).
  pose proof (proj1 (Forall_lookup _ _) Hheld i h Hh) as [-> | ->];
    pose proof (proj1 (Forall_lookup _ _) Hlast i l Hl) as [-> | ->];
    split; split;
    solve [ intros Hne; vm_compute in Hne;
            first [split; reflexivity | exfalso; apply Hne; reflexivity]
          | intros [? ?]; first [discriminate | vm_compute; discriminate] ].
Qed.

Lemma edge_detection_witness :
  ∃ h l p r,
    [1; 1; 0] !! 1%nat = Some h ∧ [1; 0; 1] !! 1%nat = Some l ∧
    KEY_PRESSED [1; 1; 0] [1; 0; 1] 1 = Some p ∧
    KEY_RELEASED [1; 1; 0] [1; 0; 1] 1 = Some r ∧
    (p ≠ 0 ↔ h = 1 ∧ l = 0) ∧
    (r ≠ 0 ↔ h = 0 ∧ l = 1).
Proof.
  apply (proj1 edge_detection [1; 1; 0] [1; 0; 1] 1%nat).
  - reflexivity.
  - repeat constructor; unfold boolean_valued; lia.
  - repeat constructor; unfold boolean_valued; lia.
  - simpl. lia.
Defined.

(** ** Theorems: the wait phase of [sdl_thread] *)

Lemma wait_check_blocks (s : state) :
  frame_available s = false → pending_sdl_thread_exit s = false →
  wait_check s =
    (Ret StillWaiting, set_sdl_pc WaitingForFrame s,
     [EvRead v_frame_available; EvRead v_pending_sdl_thread_exit; EvCondWait]).
Proof.
  intros Hfa Hpe. unfold wait_check, wait_condition. run_m.
  rewrite Hfa. cbn. rewrite Hpe. cbn. reflexivity.
Qed.

Lemma wait_check_shutdown (s : state) :
  pending_sdl_thread_exit s = true →
  ∃ tr, wait_check s = (Ret Shutdown, set_sdl_pc ShuttingDown s, tr ++ [EvUnlock frame_lock]) ∧
        (∀ e, e ∈ tr → ∃ v, e = EvRead v).
Proof.
  intros Hpe. unfold wait_check, wait_condition. run_m.
  destruct (frame_available s); cbn; repeat (rewrite Hpe; cbn).
  - exists [EvRead v_frame_available; EvRead v_pending_sdl_thread_exit].
    split; [reflexivity|]. intros e. rewrite !elem_of_cons, elem_of_nil.
    intros [->|[->|[]]]; eauto.
  - exists [EvRead v_frame_available; EvRead v_pending_sdl_thread_exit;
            EvRead v_pending_sdl_thread_exit].
    split; [reflexivity|]. intros e. rewrite !elem_of_cons, elem_of_nil.
    intros [->|[->|[->|[]]]]; eauto.
Qed.

Lemma wait_check_frame (s : state) :
  frame_available s = true → pending_sdl_thread_exit s = false →
  wait_check s =
    (Ret Frame,
     set_sdl_pc Presenting
       (set_frame_available false (set_ready_to_draw_new_frame false s)),
     [EvRead v_frame_available; EvRead v_pending_sdl_thread_exit;
      EvWrite v_ready_to_draw_new_frame; EvWrite v_frame_available;
      EvUnlock frame_lock]).
Proof.
  intros Hfa Hpe. unfold wait_check, wait_condition. run_m.
  rewrite Hfa. cbn. rewrite Hpe. cbn. reflexivity.
Qed.

Lemma sdl_thread_wait_unfold (s : state) :
  sdl_thread_wait s =
    after [EvLock frame_lock; EvWrite v_ready_to_draw_new_frame]
          (wait_check (set_ready_to_draw_new_frame true s)).
Proof.
  unfold sdl_thread_wait, after. run_m.
  destruct (wait_check (set_ready_to_draw_new_frame true s)) as [[r s'] t].
  destruct r; reflexivity.
Qed.

Lemma sdl_thread_wake_unfold (s : state) :
  sdl_thread_wake s = after [EvCondWake] (wait_check s).
Proof.
  unfold sdl_thread_wake, after. run_m.
  destruct (wait_check s) as [[r s'] t]. destruct r; reflexivity.
Qed.




(** ** What each piece of code leaves alone *)

Lemma keeps_ret {T A} (f : state → T) (a : A) : keeps f (mret a).
Proof. intros s. reflexivity. Qed.

Lemma keeps_bind {T A B} (f : state → T) (m : M A) (k : A → M B) :
  keeps f m → (∀ a, keeps f (k a)) → keeps f (m ≫= k).
Proof.
  intros Hm Hk s. specialize (Hm s). unfold mbind, M_bind, final in *.
  destruct (m s) as [[[a|r] s1] t1]; cbn in *; [|exact Hm].
  specialize (Hk a s1). unfold final in Hk.
  destruct (k a s1) as [[r2 s2] t2]; cbn in *. congruence.
Qed.

Lemma keeps_emit {T} (f : state → T) (e : event) : keeps f (emit e).
Proof. intros s. reflexivity. Qed.

Lemma keeps_call {T} (f : state → T) (g : extern) : keeps f (call g).
Proof. intros s. reflexivity. Qed.

Lemma keeps_lock {T} (f : state → T) (m : mutex) : keeps f (SDL_LockMutex m).
Proof. intros s. reflexivity. Qed.

Lemma keeps_unlock {T} (f : state → T) (m : mutex) : keeps f (SDL_UnlockMutex m).
Proof. intros s. reflexivity. Qed.

Lemma keeps_halt {T A} (f : state → T) (r : stop) : keeps f (halt (A := A) r).
Proof. intros s. reflexivity. Qed.

Lemma keeps_load {T A} (f : state → T) (v : var) (g : state → A) : keeps f (load v g).
Proof. intros s. reflexivity. Qed.

Lemma keeps_store {T} (f : state → T) (v : var) (upd : state → state) :
  (∀ s, f (upd s) = f s) → keeps f (store v upd).
Proof. intros H s. apply H. Qed.

Lemma keeps_when_nonzero {T} (f : state → T) (c : Z) (m : M unit) :
  keeps f m → keeps f (when_nonzero c m).
Proof. intros H. unfold when_nonzero. destruct (decide _); [apply keeps_ret|exact H]. Qed.

Lemma keeps_if {T A} (f : state → T) (b : bool) (m1 m2 : M A) :
  keeps f m1 → keeps f m2 → keeps f (if b then m1 else m2).
Proof. destruct b; auto. Qed.

Lemma keeps_if_dec {T A} (f : state → T) (P : Prop) (d : Decision P) (m1 m2 : M A) :
  keeps f m1 → keeps f m2 → keeps f (if d then m1 else m2).
Proof. destruct d; auto. Qed.

Lemma keeps_read_key {T} (f : state → T) (i : Z) : keeps f (read_key i).
Proof. intros s. unfold read_key. destruct (keys s !! _); reflexivity. Qed.

Lemma keeps_key_pressed {T} (f : state → T) (i : Z) : keeps f (key_pressed i).
Proof. intros s. unfold key_pressed. destruct (KEY_PRESSED _ _ _); reflexivity. Qed.

Lemma keeps_memcpy_keys_lf {T} (f : state → T) (n : Z) :
  (∀ k s, f (set_keys_lf k s) = f s) → keeps f (memcpy_keys_lf n).
Proof. intros H s. unfold memcpy_keys_lf. destruct (decide _); [apply H|reflexivity]. Qed.

#[global] Hint Resolve keeps_ret keeps_emit keeps_call keeps_lock keeps_unlock keeps_halt
  keeps_load keeps_read_key keeps_key_pressed : keeps.
#[global] Hint Resolve keeps_bind keeps_store keeps_when_nonzero keeps_if keeps_if_dec
  keeps_memcpy_keys_lf : keeps.

Lemma handle_ui_keys_locked_keeps_handoff (rp : bool) :
  keeps handoff (handle_ui_keys_locked rp).
Proof. unfold handle_ui_keys_locked. auto 30 with keeps. Qed.

Lemma handle_ui_keys_commit_keeps_handoff : keeps handoff handle_ui_keys_commit.
Proof. unfold handle_ui_keys_commit. auto 30 with keeps. Qed.

Lemma handle_ui_keys_keeps_handoff (rp : bool) : keeps handoff (handle_ui_keys rp).
Proof.
  unfold handle_ui_keys. apply keeps_bind; intros;
    [apply handle_ui_keys_locked_keeps_handoff|apply handle_ui_keys_commit_keeps_handoff].
Qed.

Lemma poll_events_keeps_frame_part (queue : list SDL_Event) :
  keeps frame_part (poll_events queue).
Proof.
  induction queue as [|e queue IH]; cbn; [apply keeps_ret|].
  apply keeps_bind; [|intros _; exact IH].
  destruct e; cbn; auto 10 with keeps.
Qed.

Lemma process_events_keeps_frame_part (kbd : list Z) (queue : list SDL_Event) :
  keeps frame_part (process_events kbd queue).
Proof.
  unfold process_events.
  pose proof (poll_events_keeps_frame_part queue). auto 10 with keeps.
Qed.

Lemma poll_events_returns (queue : list SDL_Event) (s : state) :
  result (poll_events queue s) = Ret tt ∧
  pending_sdl_thread_exit (final (poll_events queue s))
    = pending_sdl_thread_exit s || has_quit queue ∧
  sdl_pc (final (poll_events queue s)) = sdl_pc s ∧
  keys (final (poll_events queue s)) = keys s.
Proof.
  revert s. induction queue as [|e queue IH]; intros s; cbn.
  - rewrite orb_false_r. repeat split; reflexivity.
  - destruct e; run_m.
    + destruct (IH s) as (Hr & Hp & Hc & Hk).
      destruct (poll_events queue s) as [[r s'] t]; cbn in *. subst r. cbn.
      repeat split; assumption.
    + destruct (IH (set_pending_sdl_thread_exit true s)) as (Hr & Hp & Hc & Hk).
      destruct (poll_events queue _) as [[r s'] t]; cbn in *. subst r. cbn.
      rewrite orb_true_r. repeat split; assumption.
    + destruct (IH s) as (Hr & Hp & Hc & Hk).
      destruct (poll_events queue s) as [[r s'] t]; cbn in *. subst r. cbn.
      repeat split; assumption.
Qed.

(** ** The effect of each step *)

Lemma draw_frame_final (s : state) :
  ∃ t, draw_frame s =
    (Ret tt, if ready_to_draw_new_frame s then published s else s, t).
Proof.
  unfold draw_frame, published. run_m.
  destruct (ready_to_draw_new_frame s); cbn; eexists; reflexivity.
Qed.

Lemma exit_sdl_thread_final (s : state) :
  exit_sdl_thread s =
    (Ret tt, set_sdl_pc (wake (sdl_pc s)) (set_pending_sdl_thread_exit true s),
     [EvLock frame_lock; EvWrite v_pending_sdl_thread_exit; EvCondSignal;
      EvUnlock frame_lock]).
Proof. reflexivity. Qed.

Lemma wait_check_final (s : state) :
  ∃ r t, wait_check s = (Ret r, tested s, t).
Proof.
  unfold tested.
  destruct (frame_available s) eqn:Hfa, (pending_sdl_thread_exit s) eqn:Hpe.
  - destruct (wait_check_shutdown s Hpe) as (tr & E & _). rewrite E. eauto.
  - rewrite (wait_check_frame s Hfa Hpe). eauto.
  - destruct (wait_check_shutdown s Hpe) as (tr & E & _). rewrite E. eauto.
  - rewrite (wait_check_blocks s Hfa Hpe). eauto.
Qed.

Lemma step_draw_frame (s : state) :
  step LDrawFrame s = Some (if ready_to_draw_new_frame s then published s else s).
Proof.
  cbn. unfold exec. destruct (draw_frame_final s) as [t E]. rewrite E. reflexivity.
Qed.

Lemma step_exit_sdl_thread (s : state) :
  step LExitSdlThread s =
    Some (set_sdl_pc (wake (sdl_pc s)) (set_pending_sdl_thread_exit true s)).
Proof. reflexivity. Qed.

Lemma step_sdl_wait (s s' : state) :
  step LSdlWait s = Some s' ↔
  sdl_pc s = Idle ∧ s' = tested (set_ready_to_draw_new_frame true s).
Proof.
  cbn. unfold at_pc, exec. rewrite sdl_thread_wait_unfold.
  destruct (wait_check_final (set_ready_to_draw_new_frame true s)) as (r & t & E).
  rewrite E. unfold after; cbn.
  destruct (decide (sdl_pc s = Idle)); split.
  - intros [= <-]. auto.
  - intros [_ ->]. reflexivity.
  - discriminate.
  - intros [? _]. contradiction.
Qed.

Lemma step_sdl_wake (s s' : state) :
  step LSdlWake s = Some s' ↔ sdl_pc s = Woken ∧ s' = tested s.
Proof.
  cbn. unfold at_pc, exec. rewrite sdl_thread_wake_unfold.
  destruct (wait_check_final s) as (r & t & E).
  rewrite E. unfold after; cbn.
  destruct (decide (sdl_pc s = Woken)); split.
  - intros [= <-]. auto.
  - intros [_ ->]. reflexivity.
  - discriminate.
  - intros [? _]. contradiction.
Qed.

Lemma step_spurious_wake (s s' : state) :
  step LSpuriousWake s = Some s' ↔
  sdl_pc s = WaitingForFrame ∧ s' = set_sdl_pc Woken s.
Proof.
  cbn. unfold at_pc. destruct (decide (sdl_pc s = WaitingForFrame)); split.
  - intros [= <-]. auto.
  - intros [_ ->]. reflexivity.
  - discriminate.
  - intros [? _]. contradiction.
Qed.

Lemma step_put_pixel (x y : N) (color : Z) (s s' : state) :
  step (LPutPixel x y color) s = Some s' →
  s' = set_pixels (back_buffer s)
         (<[Z.to_nat (256 * Z.of_N y + Z.of_N x) := color]> (back_pixels s)) s.
Proof.
  cbn. unfold exec, put_pixel, write_back_buffer. run_m.
  destruct (x <? 256)%N; cbn; [|discriminate].
  destruct (y <? 240)%N; cbn; [|discriminate].
  destruct (decide _); cbn; [|discriminate].
  intros [= <-]. reflexivity.
Qed.

Lemma exec_final {A} (m : M A) (s s' : state) :
  exec m s = Some s' → s' = final (m s).
Proof.
  unfold exec, final. destruct (m s) as [[[a|r] s1] t]; cbn; [|discriminate].
  intros [= <-]. reflexivity.
Qed.

Lemma step_handle_ui_keys_locked (rp : bool) (s s' : state) :
  step (LHandleUiKeysLocked rp) s = Some s' → handoff s' = handoff s.
Proof.
  cbn. intros H. apply exec_final in H. subst s'.
  apply handle_ui_keys_locked_keeps_handoff.
Qed.

Lemma step_handle_ui_keys_commit (s s' : state) :
  step LHandleUiKeysCommit s = Some s' → handoff s' = handoff s.
Proof.
  cbn. intros H. apply exec_final in H. subst s'.
  apply handle_ui_keys_commit_keeps_handoff.
Qed.

Lemma sdl_thread_present_final (kbd : list Z) (queue : list SDL_Event) (s : state) :
  result (sdl_thread_present kbd queue s) = Ret tt ∧
  frame_part (final (sdl_thread_present kbd queue s)) = frame_part s ∧
  pending_sdl_thread_exit (final (sdl_thread_present kbd queue s))
    = pending_sdl_thread_exit s || has_quit queue ∧
  sdl_pc (final (sdl_thread_present kbd queue s)) = Idle ∧
  keys (final (sdl_thread_present kbd queue s)) = kbd.
Proof.
  pose proof (poll_events_returns queue (set_keys kbd s)) as (Hr & Hp & Hc & Hk).
  pose proof (poll_events_keeps_frame_part queue (set_keys kbd s)) as Hf.
  unfold sdl_thread_present, process_events. run_m.
  destruct (poll_events queue (set_keys kbd s)) as [[r s1] t]; cbn in *. subst r. cbn.
  destruct (show_debugger s1); cbn; repeat split; assumption.
Qed.

Lemma step_sdl_present (kbd : list Z) (queue : list SDL_Event) (s s' : state) :
  step (LSdlPresent kbd queue) s = Some s' →
  sdl_pc s = Presenting ∧
  frame_part s' = frame_part s ∧
  pending_sdl_thread_exit s' = pending_sdl_thread_exit s || has_quit queue ∧
  sdl_pc s' = Idle.
Proof.
  cbn. unfold at_pc. destruct (decide (length kbd = _)); [|discriminate].
  destruct (decide (sdl_pc s = Presenting)); [|discriminate].
  intros H. apply exec_final in H. subst s'.
  destruct (sdl_thread_present_final kbd queue s) as (_ & Hf & Hp & Hc & _).
  auto.
Qed.

(** ** Invariants of the handoff *)

Lemma handoff_ok_init (kbd lf : list Z) : handoff_ok (init_sdl kbd lf) = true.
Proof. reflexivity. Qed.

Lemma handoff_ok_set_pixels (h : handle) (v : list Z) (s : state) :
  handoff_ok (set_pixels h v s) = handoff_ok s.
Proof. destruct h; reflexivity. Qed.

Lemma handoff_ok_handoff (s s' : state) :
  handoff s' = handoff s → handoff_ok s' = handoff_ok s.
Proof.
  unfold handoff, handoff_ok. intros [= _ _ -> -> -> -> -> ->]. reflexivity.
Qed.

Lemma handoff_ok_step (l : label) (s s' : state) :
  handoff_ok s = true → step l s = Some s' → handoff_ok s' = true.
Proof.
  intros Hok Hstep. destruct l.
  - apply step_put_pixel in Hstep. subst s'. rewrite handoff_ok_set_pixels. exact Hok.
  - rewrite step_draw_frame in Hstep. injection Hstep as <-.
    revert Hok. cases_on_state s; vm_compute; intros; congruence.
  - rewrite step_exit_sdl_thread in Hstep. injection Hstep as <-.
    revert Hok. cases_on_state s; vm_compute; intros; congruence.
  - apply step_handle_ui_keys_locked in Hstep.
    rewrite (handoff_ok_handoff _ _ Hstep). exact Hok.
  - apply step_handle_ui_keys_commit in Hstep.
    rewrite (handoff_ok_handoff _ _ Hstep). exact Hok.
  - apply step_sdl_wait in Hstep as [Hpc ->].
    revert Hok Hpc. cases_on_state s; vm_compute; intros; congruence.
  - apply step_sdl_wake in Hstep as [Hpc ->].
    revert Hok Hpc. cases_on_state s; vm_compute; intros; congruence.
  - apply step_sdl_present in Hstep as (Hpc & Hf & _ & Hc).
    unfold handoff_ok in *. rewrite Hc. rewrite Hpc in Hok.
    unfold frame_part in Hf. injection Hf as _ _ -> -> -> ->. exact Hok.
  - apply step_spurious_wake in Hstep as [Hpc ->].
    revert Hok Hpc. cases_on_state s; vm_compute; intros; congruence.
Qed.

Lemma handoff_ok_run (ls : list label) (s s' : state) :
  handoff_ok s = true → run ls s = Some s' → handoff_ok s' = true.
Proof.
  revert s. induction ls as [|l ls IH]; cbn; intros s Hok Hrun.
  - injection Hrun as <-. exact Hok.
  - destruct (step l s) as [s1|] eqn:Hstep; cbn in Hrun; [|discriminate].
    apply (IH s1); [|exact Hrun]. exact (handoff_ok_step l s s1 Hok Hstep).
Qed.

Lemma reachable_handoff_ok (s : state) : reachable s → handoff_ok s = true.
Proof.
  induction 1 as [kbd lf Hlen | s l s' _ IH Hstep].
  - apply handoff_ok_init.
  - exact (handoff_ok_step l s s' IH Hstep).
Qed.

Lemma reachable_run (ls : list label) (s s' : state) :
  reachable s → run ls s = Some s' → reachable s'.
Proof.
  revert s. induction ls as [|l ls IH]; cbn; intros s Hs Hrun.
  - injection Hrun as <-. exact Hs.
  - destruct (step l s) as [s1|] eqn:Hstep; cbn in Hrun; [|discriminate].
    apply (IH s1); [|exact Hrun]. exact (reachable_step s l s1 Hs Hstep).
Qed.

(** ** Theorems: who sets and who clears [frame_available] *)

Lemma frame_available_frame_part (s s' : state) :
  frame_part s' = frame_part s → frame_available s' = frame_available s.
Proof. unfold frame_part. intros [= _ _ _ _ _ ->]. reflexivity. Qed.

Lemma frame_available_handoff (s s' : state) :
  handoff s' = handoff s → frame_available s' = frame_available s.
Proof. unfold handoff. intros [= _ _ _ _ _ -> _ _]. reflexivity. Qed.

(** C4. Along every step out of a reachable state, [frame_available] goes
    from clear to set only in [draw_frame], and then
    [ready_to_draw_new_frame] was set when [draw_frame] ran; it goes from set
    to clear only when the SDL thread comes out of [SDL_CondWait] and picks
    the frame up, moving on to render it. *)
Theorem frame_available_transitions (s : state) (l : label) (s' : state) :
  reachable s → step l s = Some s' →
  (frame_available s = false → frame_available s' = true →
     l = LDrawFrame ∧ ready_to_draw_new_frame s = true) ∧
  (frame_available s = true → frame_available s' = false →
     l = LSdlWake ∧ result (sdl_thread_wake s) = Ret Frame ∧ sdl_pc s' = Presenting).
Proof.
  intros Hreach Hstep. apply reachable_handoff_ok in Hreach as Hok. destruct l.
  - apply step_put_pixel in Hstep. subst s'.
    assert (E : frame_available
                  (set_pixels (back_buffer s)
                     (<[Z.to_nat (256 * Z.of_N y + Z.of_N x) := color]> (back_pixels s)) s)
                = frame_available s) by (destruct (back_buffer s); reflexivity).
    rewrite E. split; intros; congruence.
  - rewrite step_draw_frame in Hstep. injection Hstep as <-.
    destruct (ready_to_draw_new_frame s) eqn:Hr; cbn.
    + split; intros; [auto|discriminate].
    + split; intros; congruence.
  - rewrite step_exit_sdl_thread in Hstep. injection Hstep as <-. cbn.
    split; intros; congruence.
  - apply step_handle_ui_keys_locked, frame_available_handoff in Hstep.
    rewrite Hstep. split; intros; congruence.
  - apply step_handle_ui_keys_commit, frame_available_handoff in Hstep.
    rewrite Hstep. split; intros; congruence.
  - apply step_sdl_wait in Hstep as [Hpc ->].
    revert Hok Hpc. cases_on_state s; vm_compute; split; intros; congruence.
  - apply step_sdl_wake in Hstep as [Hpc ->]. split.
    + revert Hok Hpc. cases_on_state s; vm_compute; intros; congruence.
    + intros Hfa Hfa'. split; [reflexivity|].
      unfold tested in *. rewrite Hfa in *.
      destruct (pending_sdl_thread_exit s) eqn:Hpe.
      * cbn in Hfa'. congruence.
      * rewrite sdl_thread_wake_unfold, (wait_check_frame s Hfa Hpe).
        split; reflexivity.
  - apply step_sdl_present in Hstep as (_ & Hf & _).
    apply frame_available_frame_part in Hf. rewrite Hf. split; intros; congruence.
  - apply step_spurious_wake in Hstep as [_ ->]. cbn. split; intros; congruence.
Qed.

Lemma frame_available_transitions_witness :
  (frame_available waiting0 = false → frame_available (published waiting0) = true →
     LDrawFrame = LDrawFrame ∧ ready_to_draw_new_frame waiting0 = true) ∧
  (frame_available waiting0 = true → frame_available (published waiting0) = false →
     LDrawFrame = LSdlWake ∧ result (sdl_thread_wake waiting0) = Ret Frame ∧
     sdl_pc (published waiting0) = Presenting).
Proof.
  apply (frame_available_transitions waiting0 LDrawFrame (published waiting0)).
  - apply (reachable_step (init_sdl [] []) LSdlWait).
    + apply reachable_init. reflexivity.
    + reflexivity.
  - reflexivity.
Defined.

(** ** Theorems: [exit_sdl_thread] *)

Lemma leaving_handoff (s s' : state) :
  handoff s' = handoff s → leaving s' = leaving s.
Proof. unfold handoff, leaving. intros [= _ _ _ _ _ _ -> ->]. reflexivity. Qed.

Lemma leaving_step (l : label) (s s' : state) :
  leaving s = true → step l s = Some s' → leaving s' = true.
Proof.
  intros Hl Hstep. destruct l.
  - apply step_put_pixel in Hstep. subst s'.
    destruct (back_buffer s); exact Hl.
  - rewrite step_draw_frame in Hstep. injection Hstep as <-.
    revert Hl. cases_on_state s; vm_compute; intros; congruence.
  - rewrite step_exit_sdl_thread in Hstep. injection Hstep as <-.
    revert Hl. cases_on_state s; vm_compute; intros; congruence.
  - apply step_handle_ui_keys_locked in Hstep.
    rewrite (leaving_handoff _ _ Hstep). exact Hl.
  - apply step_handle_ui_keys_commit in Hstep.
    rewrite (leaving_handoff _ _ Hstep). exact Hl.
  - apply step_sdl_wait in Hstep as [Hpc ->].
    revert Hl Hpc. cases_on_state s; vm_compute; intros; congruence.
  - apply step_sdl_wake in Hstep as [Hpc ->].
    revert Hl Hpc. cases_on_state s; vm_compute; intros; congruence.
  - apply step_sdl_present in Hstep as (Hpc & _).
    unfold leaving in Hl. rewrite Hpc, andb_false_r in Hl. discriminate.
  - apply step_spurious_wake in Hstep as [Hpc _].
    unfold leaving in Hl. rewrite Hpc, andb_false_r in Hl. discriminate.
Qed.

Lemma leaving_run (ls : list label) (s s' : state) :
  leaving s = true → run ls s = Some s' → leaving s' = true.
Proof.
  revert s. induction ls as [|l ls IH]; cbn; intros s Hl Hrun.
  - injection Hrun as <-. exact Hl.
  - destruct (step l s) as [s1|] eqn:Hstep; cbn in Hrun; [|discriminate].
    apply (IH s1); [|exact Hrun]. exact (leaving_step l s s1 Hl Hstep).
Qed.

Lemma leaving_wake (s : state) :
  leaving s = true → sdl_pc s = Woken →
  result (sdl_thread_wake s) = Ret Shutdown ∧
  step LSdlWake s = Some (set_sdl_pc ShuttingDown s).
Proof.
  intros Hl Hpc. unfold leaving in Hl. apply andb_prop in Hl as [Hpe _].
  split.
  - rewrite sdl_thread_wake_unfold.
    destruct (wait_check_shutdown s Hpe) as (tr & E & _). rewrite E. reflexivity.
  - apply step_sdl_wake. split; [exact Hpc|].
    unfold tested. rewrite Hpe. destruct (frame_available s); reflexivity.
Qed.

Lemma shut_down_step (l : label) (s s' : state) :
  sdl_pc s = ShuttingDown → step l s = Some s' → sdl_pc s' = ShuttingDown.
Proof.
  intros Hpc Hstep. destruct l.
  - apply step_put_pixel in Hstep. subst s'. destruct (back_buffer s); exact Hpc.
  - rewrite step_draw_frame in Hstep. injection Hstep as <-.
    destruct (ready_to_draw_new_frame s); cbn; [rewrite Hpc; reflexivity|exact Hpc].
  - rewrite step_exit_sdl_thread in Hstep. injection Hstep as <-. cbn.
    rewrite Hpc. reflexivity.
  - apply step_handle_ui_keys_locked in Hstep. unfold handoff in Hstep. congruence.
  - apply step_handle_ui_keys_commit in Hstep. unfold handoff in Hstep. congruence.
  - apply step_sdl_wait in Hstep as [Hpc' _]. congruence.
  - apply step_sdl_wake in Hstep as [Hpc' _]. congruence.
  - apply step_sdl_present in Hstep as (Hpc' & _). congruence.
  - apply step_spurious_wake in Hstep as [Hpc' _]. congruence.
Qed.

(** C9. [exit_sdl_thread] sets [pending_sdl_thread_exit] and signals
    [frame_available_cond], the condition variable [draw_frame] signals,
    between taking and giving back [frame_lock].  If the SDL thread is
    blocked in its wait, it is thereby woken; whatever the other threads do
    from then on, the thread is never blocked or rendering again, its next
    step (which is enabled, with no [draw_frame] needed) returns from
    [sdl_thread], and once it has returned it stays returned. *)
Theorem exit_sdl_thread_unblocks :
  (∀ s, let o := exit_sdl_thread s in
     result o = Ret tt ∧
     final o = set_sdl_pc (wake (sdl_pc s)) (set_pending_sdl_thread_exit true s) ∧
     pending_sdl_thread_exit (final o) = true ∧
     log o = [EvLock frame_lock; EvWrite v_pending_sdl_thread_exit; EvCondSignal;
              EvUnlock frame_lock] ∧
     under_lock frame_lock (log o) ∧
     (∀ s0, ready_to_draw_new_frame s0 = true → EvCondSignal ∈ log (draw_frame s0))) ∧
  (∀ s, sdl_pc s = WaitingForFrame →
     ∃ s1, step LExitSdlThread s = Some s1 ∧
       sdl_pc s1 = Woken ∧ pending_sdl_thread_exit s1 = true ∧
       result (sdl_thread_wake s1) = Ret Shutdown ∧
       (∃ s2, step LSdlWake s1 = Some s2 ∧ sdl_pc s2 = ShuttingDown) ∧
       (∀ ls s2, run ls s1 = Some s2 →
          pending_sdl_thread_exit s2 = true ∧
          (sdl_pc s2 = ShuttingDown ∨
           sdl_pc s2 = Woken ∧
           result (sdl_thread_wake s2) = Ret Shutdown ∧
           ∃ s3, step LSdlWake s2 = Some s3 ∧ sdl_pc s3 = ShuttingDown))) ∧
  (∀ s l s', sdl_pc s = ShuttingDown → step l s = Some s' → sdl_pc s' = ShuttingDown).
Proof.
  split; [|split].
  - intros s o. subst o. rewrite exit_sdl_thread_final.
    unfold under_lock. repeat split; try reflexivity.
    intros s0 Hr. exact (draw_frame_signals s0 Hr).
  - intros s Hpc.
    set (s1 := set_sdl_pc (wake (sdl_pc s)) (set_pending_sdl_thread_exit true s)).
    assert (Hpc1 : sdl_pc s1 = Woken) by (subst s1; cbn; rewrite Hpc; reflexivity).
    assert (Hl1 : leaving s1 = true) by (unfold leaving; rewrite Hpc1; reflexivity).
    exists s1. split; [apply step_exit_sdl_thread|].
    split; [exact Hpc1|]. split; [reflexivity|].
    destruct (leaving_wake s1 Hl1 Hpc1) as [Hres Hstep].
    split; [exact Hres|]. split; [eexists; split; [exact Hstep|reflexivity]|].
    intros ls s2 Hrun. pose proof (leaving_run ls s1 s2 Hl1 Hrun) as Hl2.
    unfold leaving in Hl2. apply andb_prop in Hl2 as Hl2'. destruct Hl2' as [Hpe2 Hpc2].
    split; [exact Hpe2|].
    destruct (sdl_pc s2) eqn:E; try discriminate; [right|left; reflexivity].
    assert (Hl2'' : leaving s2 = true) by (unfold leaving; rewrite Hpe2, E; reflexivity).
    destruct (leaving_wake s2 Hl2'' E) as [Hres2 Hstep2].
    split; [reflexivity|]. split; [exact Hres2|].
    eexists; split; [exact Hstep2|reflexivity].
  - intros s l s'. apply shut_down_step.
Qed.

Lemma exit_sdl_thread_unblocks_witness :
  ∃ s1, step LExitSdlThread tiny = Some s1 ∧
    sdl_pc s1 = Woken ∧ pending_sdl_thread_exit s1 = true ∧
    result (sdl_thread_wake s1) = Ret Shutdown ∧
    (∃ s2, step LSdlWake s1 = Some s2 ∧ sdl_pc s2 = ShuttingDown) ∧
    (∀ ls s2, run ls s1 = Some s2 →
       pending_sdl_thread_exit s2 = true ∧
       (sdl_pc s2 = ShuttingDown ∨
        sdl_pc s2 = Woken ∧
        result (sdl_thread_wake s2) = Ret Shutdown ∧
        ∃ s3, step LSdlWake s2 = Some s3 ∧ sdl_pc s3 = ShuttingDown)).
Proof.
  exact (proj1 (proj2 exit_sdl_thread_unblocks) tiny eq_refl).
Defined.

(** ** Frames from [draw_frame] to the SDL thread *)

Lemma pixels_frame_part (s s' : state) :
  frame_part s' = frame_part s →
  front_pixels s' = front_pixels s ∧ back_pixels s' = back_pixels s ∧
  front_buffer s' = front_buffer s ∧ back_buffer s' = back_buffer s ∧
  ready_to_draw_new_frame s' = ready_to_draw_new_frame s ∧
  frame_available s' = frame_available s.
Proof.
  unfold frame_part, front_pixels, back_pixels, pixels.
  intros [= -> -> -> -> -> ->]. repeat split; reflexivity.
Qed.

Lemma handoff_frame_part (s s' : state) :
  handoff s' = handoff s → frame_part s' = frame_part s.
Proof. unfold handoff, frame_part. intros [= -> -> -> -> -> -> _ _]. reflexivity. Qed.

Lemma put_pixel_front (i : nat) (color : Z) (s : state) :
  handoff_ok s = true →
  let s' := set_pixels (back_buffer s) (<[i := color]> (back_pixels s)) s in
  front_pixels s' = front_pixels s ∧ frame_available s' = frame_available s ∧
  back_pixels s' = <[i := color]> (back_pixels s) ∧
  back_buffer s' = back_buffer s ∧ front_buffer s' = front_buffer s ∧
  ready_to_draw_new_frame s' = ready_to_draw_new_frame s ∧
  pending_sdl_thread_exit s' = pending_sdl_thread_exit s ∧
  sdl_pc s' = sdl_pc s.
Proof.
  destruct s as [b0 b1 f b r a d k kl ks p c].
  unfold handoff_ok, front_pixels, back_pixels; cbn.
  destruct f, b; cbn; intros H; try discriminate; repeat split; reflexivity.
Qed.

(** One step that picks no frame up keeps "if a frame is available, it is
    the one [draw_frame] was last called on". *)
Lemma unconsumed_step (l : label) (s s' : state) (pub : option (list Z)) :
  handoff_ok s = true →
  (frame_available s = true → pub = Some (front_pixels s)) →
  step l s = Some s' → consumes l s' = false →
  frame_available s' = true →
  match l with LDrawFrame => Some (back_pixels s) | _ => pub end = Some (front_pixels s').
Proof.
  intros Hok Hpub Hstep Hnc Hfa. destruct l.
  - apply step_put_pixel in Hstep. subst s'.
    destruct (put_pixel_front (Z.to_nat (256 * Z.of_N y + Z.of_N x)) color s Hok)
      as (Hf & Ha & _).
    rewrite Hf. rewrite Ha in Hfa. auto.
  - rewrite step_draw_frame in Hstep. injection Hstep as <-.
    destruct (ready_to_draw_new_frame s) eqn:Hr.
    + unfold published, front_pixels, back_pixels. reflexivity.
    + exfalso. revert Hok Hr Hfa. cases_on_state s; vm_compute; intros; congruence.
  - rewrite step_exit_sdl_thread in Hstep. injection Hstep as <-. exact (Hpub Hfa).
  - apply step_handle_ui_keys_locked, handoff_frame_part, pixels_frame_part in Hstep
      as (Hf & _ & _ & _ & _ & Ha).
    rewrite Hf. rewrite Ha in Hfa. auto.
  - apply step_handle_ui_keys_commit, handoff_frame_part, pixels_frame_part in Hstep
      as (Hf & _ & _ & _ & _ & Ha).
    rewrite Hf. rewrite Ha in Hfa. auto.
  - apply step_sdl_wait in Hstep as [Hpc ->].
    revert Hok Hpub Hpc Hnc Hfa. cases_on_state s; vm_compute; intros; congruence.
  - apply step_sdl_wake in Hstep as [Hpc ->].
    revert Hok Hpub Hpc Hnc Hfa. cases_on_state s; vm_compute; intros; auto; congruence.
  - apply step_sdl_present in Hstep as (_ & Hf & _).
    apply pixels_frame_part in Hf as (Hf & _ & _ & _ & _ & Ha).
    rewrite Hf. rewrite Ha in Hfa. auto.
  - apply step_spurious_wake in Hstep as [_ ->]. exact (Hpub Hfa).
Qed.

Lemma run_unconsumed_available (ls : list label) :
  ∀ (s : state) (pub0 : option (list Z)) (s1 : state) (pub : option (list Z)),
    handoff_ok s = true →
    (frame_available s = true → pub0 = Some (front_pixels s)) →
    run_unconsumed ls s pub0 = Some (s1, pub) →
    handoff_ok s1 = true ∧ (frame_available s1 = true → pub = Some (front_pixels s1)).
Proof.
  induction ls as [|l ls IH]; cbn; intros s pub0 s1 pub Hok Hpub Hrun.
  - injection Hrun as <- <-. auto.
  - destruct (step l s) as [s'|] eqn:Hstep; [|discriminate].
    destruct (consumes l s') eqn:Hnc; [discriminate|].
    eapply IH; [exact (handoff_ok_step l s s' Hok Hstep)| |exact Hrun].
    intros Hfa. exact (unconsumed_step l s s' pub0 Hok Hpub Hstep Hnc Hfa).
Qed.

Lemma run_unconsumed_forgets (ls : list label) :
  ∀ (s : state) (p p' : option (list Z)),
    LDrawFrame ∈ ls → run_unconsumed ls s p = run_unconsumed ls s p'.
Proof.
  induction ls as [|l ls IH]; cbn; intros s p p' Hin.
  - apply elem_of_nil in Hin. contradiction.
  - destruct (step l s) as [s'|]; [|reflexivity].
    destruct (consumes l s'); [reflexivity|].
    apply elem_of_cons in Hin as [<- | Hin]; [reflexivity|].
    destruct l; try (apply IH; exact Hin); reflexivity.
Qed.

(** The step that picks a frame up needs one to be available and does not
    touch the front buffer. *)
Lemma consuming_step (l : label) (s s' : state) :
  step l s = Some s' → consumes l s' = true →
  frame_available s = true ∧ front_pixels s' = front_pixels s ∧
  front_buffer s' = front_buffer s ∧
  frame_available s' = false ∧ ready_to_draw_new_frame s' = false ∧
  sdl_pc s' = Presenting.
Proof.
  intros Hstep Hc. destruct l; try discriminate.
  - apply step_sdl_wait in Hstep as [Hpc ->].
    revert Hpc Hc. cases_on_state s; vm_compute; intros; repeat split; congruence.
  - apply step_sdl_wake in Hstep as [Hpc ->].
    revert Hpc Hc. cases_on_state s; vm_compute; intros; repeat split; congruence.
Qed.

(** While the SDL thread is between the pick-up and its rendering, nothing
    the other threads do reaches the front buffer. *)
Lemma presenting_step (l : label) (s s' : state) :
  handoff_ok s = true → sdl_pc s = Presenting → is_present l = false →
  step l s = Some s' →
  sdl_pc s' = Presenting ∧ front_buffer s' = front_buffer s ∧
  front_pixels s' = front_pixels s.
Proof.
  intros Hok Hpc Hnp Hstep. destruct l; try discriminate.
  - apply step_put_pixel in Hstep. subst s'.
    destruct (put_pixel_front (Z.to_nat (256 * Z.of_N y + Z.of_N x)) color s Hok)
      as (Hf & _ & _ & _ & Hfb & _ & _ & Hc).
    rewrite Hf, Hfb, Hc. auto.
  - rewrite step_draw_frame in Hstep. injection Hstep as <-.
    revert Hok Hpc. cases_on_state s; vm_compute; intros; repeat split; congruence.
  - rewrite step_exit_sdl_thread in Hstep. injection Hstep as <-.
    cbn. rewrite Hpc. auto.
  - apply step_handle_ui_keys_locked in Hstep.
    pose proof (pixels_frame_part _ _ (handoff_frame_part _ _ Hstep)) as (Hf & _ & Hfb & _).
    unfold handoff in Hstep. repeat split; congruence.
  - apply step_handle_ui_keys_commit in Hstep.
    pose proof (pixels_frame_part _ _ (handoff_frame_part _ _ Hstep)) as (Hf & _ & Hfb & _).
    unfold handoff in Hstep. repeat split; congruence.
  - apply step_sdl_wait in Hstep as [Hpc' _]. congruence.
  - apply step_sdl_wake in Hstep as [Hpc' _]. congruence.
  - apply step_spurious_wake in Hstep as [Hpc' _]. congruence.
Qed.

Lemma presenting_run (ls : list label) :
  ∀ s s' : state,
    handoff_ok s = true → sdl_pc s = Presenting →
    forallb (λ l, negb (is_present l)) ls = true →
    run ls s = Some s' →
    sdl_pc s' = Presenting ∧ front_buffer s' = front_buffer s ∧
    front_pixels s' = front_pixels s.
Proof.
  induction ls as [|l ls IH]; cbn; intros s s' Hok Hpc Hnp Hrun.
  - injection Hrun as <-. auto.
  - apply andb_prop in Hnp as [Hl Hnp]. apply negb_true_iff in Hl.
    destruct (step l s) as [s1|] eqn:Hstep; cbn in Hrun; [|discriminate].
    destruct (presenting_step l s s1 Hok Hpc Hl Hstep) as (Hc1 & Hb1 & Hf1).
    destruct (IH s1 s' (handoff_ok_step l s s1 Hok Hstep) Hc1 Hnp Hrun) as (Hc & Hb & Hf).
    repeat split; congruence.
Qed.

(** What the rendering step uploads. *)
Lemma sdl_thread_present_uploads (kbd : list Z) (queue : list SDL_Event) (s : state) :
  EvCall (SDL_UpdateTexture (front_buffer s)) ∈ log (sdl_thread_present kbd queue s) ∧
  front_pixels (final (sdl_thread_present kbd queue s)) = front_pixels s.
Proof.
  split.
  - pose proof (poll_events_keeps_frame_part queue (set_keys kbd s)) as Hf.
    pose proof (poll_events_returns queue (set_keys kbd s)) as (Hr & _).
    unfold sdl_thread_present, process_events. run_m.
    destruct (poll_events queue (set_keys kbd s)) as [[r s1] t]; cbn in *.
    injection Hf as _ _ Hfb _ _ _. subst r. cbn.
    rewrite Hfb. destruct (show_debugger s1); cbn;
      rewrite !elem_of_cons, elem_of_app, !elem_of_cons; auto 20.
  - destruct (sdl_thread_present_final kbd queue s) as (_ & Hf & _).
    apply pixels_frame_part in Hf as (Hf & _). exact Hf.
Qed.

Lemma run_cons (l : label) (ls : list label) (s : state) :
  run (l :: ls) s = step l s ≫= run ls.
Proof. reflexivity. Qed.

Lemma quiet_step (l : label) (s s' : state) :
  hands_off l s = false → step l s = Some s' →
  back_buffer s' = back_buffer s ∧ front_buffer s' = front_buffer s ∧
  back_pixels s' =
    match l with
    | LPutPixel x y color => apply_write (back_pixels s) (x, y, color)
    | _ => back_pixels s
    end.
Proof.
  intros Hq Hstep. destruct l.
  - apply step_put_pixel in Hstep. subst s'. unfold apply_write, back_pixels; cbn.
    destruct s as [b0 b1 f b r a d k kl ks p c]; cbn. destruct b; cbn; auto.
  - rewrite step_draw_frame in Hstep. cbn in Hq. rewrite Hq in Hstep.
    injection Hstep as <-. auto.
  - rewrite step_exit_sdl_thread in Hstep. injection Hstep as <-. auto.
  - apply step_handle_ui_keys_locked, handoff_frame_part, pixels_frame_part in Hstep
      as (_ & Hb & Hfb & Hbb & _). auto.
  - apply step_handle_ui_keys_commit, handoff_frame_part, pixels_frame_part in Hstep
      as (_ & Hb & Hfb & Hbb & _). auto.
  - apply step_sdl_wait in Hstep as [_ ->].
    cases_on_state s; vm_compute; auto.
  - apply step_sdl_wake in Hstep as [_ ->].
    cases_on_state s; vm_compute; auto.
  - apply step_sdl_present in Hstep as (_ & Hf & _).
    apply pixels_frame_part in Hf as (_ & Hb & Hfb & Hbb & _). auto.
  - apply step_spurious_wake in Hstep as [_ ->]. auto.
Qed.

Lemma run_quiet_back (ls : list label) :
  ∀ s s' : state,
    run_quiet ls s = Some s' →
    back_buffer s' = back_buffer s ∧ front_buffer s' = front_buffer s ∧
    back_pixels s' = apply_writes (writes_of ls) (back_pixels s).
Proof.
  induction ls as [|l ls IH]; cbn; intros s s' Hrun.
  - injection Hrun as <-. auto.
  - destruct (hands_off l s) eqn:Hq; [discriminate|].
    destruct (step l s) as [s1|] eqn:Hstep; cbn in Hrun; [|discriminate].
    destruct (quiet_step l s s1 Hq Hstep) as (Hb1 & Hf1 & Hp1).
    destruct (IH s1 s' Hrun) as (Hb & Hf & Hp).
    rewrite Hb, Hf, Hp, Hb1, Hf1, Hp1.
    destruct l; auto.
Qed.

(** ** Theorems: which frame the SDL thread gets *)

(** C5, as the code has it.  Take any run from a state that satisfies the
    handoff invariant, in which no frame is picked up and which either
    starts with no frame available or contains a [draw_frame]; let the next
    step pick a frame up.  Then the pixels the SDL thread gets are those of
    the back buffer at the last [draw_frame] of the run, and they are still
    the pixels of [front_buffer] when the thread uploads it, whatever the
    other threads do in between.  A [draw_frame] that finds
    [ready_to_draw_new_frame] clear changes nothing, so two in a row, with or
    without a [put_pixel] between them, are both dropped.  And after any run
    in which no [draw_frame] hands a frame off, a [draw_frame] that does
    hands off the back buffer as it stood at the start of that run with the
    run's [put_pixel] calls applied in order: the buffer is not cleared, so
    where no such call lands the older contents stay. *)
Theorem frame_delivery :
  (∀ (s0 : state) (ls : list label) (s1 : state) (pub : option (list Z))
     (l : label) (s2 : state),
     handoff_ok s0 = true →
     frame_available s0 = false ∨ LDrawFrame ∈ ls →
     run_unconsumed ls s0 None = Some (s1, pub) →
     step l s1 = Some s2 → consumes l s2 = true →
     pub = Some (front_pixels s2) ∧
     (∀ (ls' : list label) (s3 : state),
        forallb (λ l, negb (is_present l)) ls' = true → run ls' s2 = Some s3 →
        front_pixels s3 = front_pixels s2 ∧
        ∀ kbd queue,
          EvCall (SDL_UpdateTexture (front_buffer s2))
            ∈ log (sdl_thread_present kbd queue s3))) ∧
  (∀ s : state, ready_to_draw_new_frame s = false →
     step LDrawFrame s = Some s ∧
     run [LDrawFrame; LDrawFrame] s = Some s ∧
     ∀ x y color,
       run [LDrawFrame; LPutPixel x y color; LDrawFrame] s = step (LPutPixel x y color) s) ∧
  (∀ (s : state) (ls : list label) (s' : state),
     run_quiet ls s = Some s' → ready_to_draw_new_frame s' = true →
     back_buffer s' = back_buffer s ∧
     back_pixels s' = apply_writes (writes_of ls) (back_pixels s) ∧
     step LDrawFrame s' = Some (published s') ∧
     front_pixels (published s') = apply_writes (writes_of ls) (back_pixels s)).
Proof.
  split; [|split].
  - intros s0 ls s1 pub l s2 Hok Hstart Hrun Hstep Hc.
    destruct (consuming_step l s1 s2 Hstep Hc) as (Hfa1 & Hf & Hfb & _ & _ & Hpc2).
    assert (H1 : handoff_ok s1 = true ∧ (frame_available s1 = true → pub = Some (front_pixels s1))).
    { destruct Hstart as [Hfa0 | Hin].
      - apply (run_unconsumed_available ls s0 None s1 pub Hok); [congruence|exact Hrun].
      - rewrite (run_unconsumed_forgets ls s0 None (Some (front_pixels s0)) Hin) in Hrun.
        apply (run_unconsumed_available ls s0 (Some (front_pixels s0)) s1 pub Hok);
          [auto|exact Hrun]. }
    destruct H1 as [Hok1 Hpub]. split; [rewrite Hf; auto|].
    intros ls' s3 Hnp Hrun'.
    pose proof (handoff_ok_step l s1 s2 Hok1 Hstep) as Hok2.
    destruct (presenting_run ls' s2 s3 Hok2 Hpc2 Hnp Hrun') as (_ & Hfb3 & Hf3).
    split; [exact Hf3|]. intros kbd queue. rewrite <- Hfb3.
    apply sdl_thread_present_uploads.
  - intros s Hr.
    assert (Hd : step LDrawFrame s = Some s) by (rewrite step_draw_frame, Hr; reflexivity).
    split; [exact Hd|]. split.
    + do 2 (rewrite run_cons, Hd; cbn [mbind option_bind]). reflexivity.
    + intros x y color. rewrite run_cons, Hd. cbn [mbind option_bind].
      rewrite run_cons.
      destruct (step (LPutPixel x y color) s) as [s1|] eqn:Hp; [|reflexivity].
      cbn [mbind option_bind].
      assert (Hr1 : ready_to_draw_new_frame s1 = false).
      { apply step_put_pixel in Hp. subst s1. destruct (back_buffer s); exact Hr. }
      rewrite run_cons, step_draw_frame, Hr1. reflexivity.
  - intros s ls s' Hrun Hr.
    destruct (run_quiet_back ls s s' Hrun) as (Hb & _ & Hp).
    split; [exact Hb|]. split; [exact Hp|]. split.
    + rewrite step_draw_frame, Hr. reflexivity.
    + rewrite <- Hp. reflexivity.
Qed.

Lemma frame_delivery_witness :
  Some [0; 9; 0; 0] =
    Some (front_pixels
            (State [0; 9; 0; 0] [0; 0; 0; 0] RB0 RB1 false false false
                   [1; 1; 0] [1; 0; 1] 3 false Presenting)).
Proof.
  refine (proj1 (proj1 frame_delivery tiny [LPutPixel 1 0 9; LDrawFrame]
            (State [0; 9; 0; 0] [0; 0; 0; 0] RB0 RB1 true true false
                   [1; 1; 0] [1; 0; 1] 3 false Woken)
            (Some [0; 9; 0; 0]) LSdlWake _ _ _ _ _ _)).
  - reflexivity.
  - left. reflexivity.
  - vm_compute. reflexivity.
  - vm_compute. reflexivity.
  - reflexivity.
Defined.

(** *** A run in which an old write shows through *)

(** C5 as stated fails.  The runs [two_frames 5 ++ third_frame] and
    [two_frames 6 ++ third_frame] hand frames off at steps 2, 6 and 11.
    After the hand-off of step 6 both make the same single [put_pixel], to
    pixel 1; they differ only in the colour written to pixel 0 before step 2.
    The frame picked up after the hand-off of step 11 has that colour at
    pixel 0: a [put_pixel] older than the last hand-off is visible at the
    next one, where the calls made since the last hand-off alone would leave
    pixel 0 at its initial 0. *)
Lemma stale_write_delivered :
  hand_offs (two_frames 5 ++ third_frame) (init_sdl [] []) 0 = [2; 6; 11]%nat ∧
  hand_offs (two_frames 6 ++ third_frame) (init_sdl [] []) 0 = [2; 6; 11]%nat ∧
  writes_of third_frame = [(1%N, 0%N, 7)] ∧
  delivered (two_frames 5 ++ third_frame) 0 = Some 5 ∧
  delivered (two_frames 6 ++ third_frame) 0 = Some 6 ∧
  delivered (two_frames 5 ++ third_frame) 1 = Some 7 ∧
  delivered (two_frames 6 ++ third_frame) 1 = Some 7 ∧
  delivered (two_frames 5 ++ third_frame) 0 ≠ delivered (two_frames 6 ++ third_frame) 0 ∧
  apply_writes (writes_of third_frame) (replicate (Z.to_nat buffer_size) 0) !! 0%nat
    = Some 0.
Proof.
  assert (H5 : delivered (two_frames 5 ++ third_frame) 0 = Some 5)
    by (vm_compute; reflexivity).
  assert (H6 : delivered (two_frames 6 ++ third_frame) 0 = Some 6)
    by (vm_compute; reflexivity).
  repeat split; try (vm_compute; reflexivity); try assumption.
  rewrite H5, H6. discriminate.
Qed.

(** ** Reachable states are well formed *)

Lemma buffers_ok_frame_part (s s' : state) :
  frame_part s' = frame_part s → buffers_ok s → buffers_ok s'.
Proof. unfold frame_part, buffers_ok. intros [= -> -> _ _ _ _]. auto. Qed.

Lemma buffers_ok_step (l : label) (s s' : state) :
  buffers_ok s → step l s = Some s' → buffers_ok s'.
Proof.
  intros Hok Hstep. destruct l.
  - apply step_put_pixel in Hstep. subst s'. destruct Hok as [H0 H1].
    unfold buffers_ok, back_pixels.
    destruct s as [b0 b1 f b r a d k kl ks p c]; cbn in *.
    destruct b; cbn; rewrite length_insert; auto.
  - rewrite step_draw_frame in Hstep. injection Hstep as <-.
    destruct (ready_to_draw_new_frame s); exact Hok.
  - rewrite step_exit_sdl_thread in Hstep. injection Hstep as <-. exact Hok.
  - apply step_handle_ui_keys_locked, handoff_frame_part in Hstep.
    exact (buffers_ok_frame_part s s' Hstep Hok).
  - apply step_handle_ui_keys_commit, handoff_frame_part in Hstep.
    exact (buffers_ok_frame_part s s' Hstep Hok).
  - apply step_sdl_wait in Hstep as [_ ->]. revert Hok. unfold buffers_ok, tested.
    destruct s as [b0 b1 f b r a d k kl ks p c]; cbn. destruct a, p; cbn; auto.
  - apply step_sdl_wake in Hstep as [_ ->]. revert Hok. unfold buffers_ok, tested.
    destruct s as [b0 b1 f b r a d k kl ks p c]; cbn. destruct a, p; cbn; auto.
  - apply step_sdl_present in Hstep as (_ & Hf & _).
    exact (buffers_ok_frame_part s s' Hf Hok).
  - apply step_spurious_wake in Hstep as [_ ->]. exact Hok.
Qed.

Lemma reachable_well_formed (s : state) :
  reachable s → buffers_ok s ∧ distinct_buffers s.
Proof.
  intros Hr. split.
  - induction Hr as [kbd lf Hlen | s l s' _ IH Hstep].
    + apply init_sdl_buffers_ok.
    + exact (buffers_ok_step l s s' IH Hstep).
  - apply reachable_handoff_ok in Hr. unfold handoff_ok in Hr.
    apply andb_prop in Hr as [Hr _]. apply andb_prop in Hr as [Hr _].
    apply bool_decide_eq_true in Hr. exact Hr.
Qed.

(** ** The last-frame copy in [handle_ui_keys] *)

Lemma handle_ui_keys_commit_log (s : state) :
  keys_size s ≠ 0 → result (handle_ui_keys_commit s) = Ret tt →
  log (handle_ui_keys_commit s) = [EvRead v_keys_size; EvRead v_keys; EvWrite v_keys_lf] ∧
  outside event_lock false (log (handle_ui_keys_commit s))
    = [EvRead v_keys_size; EvRead v_keys; EvWrite v_keys_lf].
Proof.
  intros Hn. unfold handle_ui_keys_commit, memcpy_keys_lf. run_m.
  destruct (decide (keys_size s = 0)); [contradiction|].
  destruct (decide _); cbn; [|discriminate]. intros _. split; reflexivity.
Qed.

(** C8 on the code.  [handle_ui_keys] copies [keys] into [keys_lf] once,
    but after [SDL_UnlockMutex(event_lock)]: the read of [keys_size], the
    read of [keys] and the write of [keys_lf] are the three events of its log
    that happen without [event_lock].  So [process_events] can refresh
    [keys] between the last read under the lock and the copy; when F3 goes
    down in that window, the copy records it as already held, and neither
    this call nor the next sees [KEY_PRESSED(SDL_SCANCODE_F3)]. *)
Theorem handle_ui_keys_commits_unlocked :
  let s := quiet_keyboard in
  result (handle_ui_keys false s) = Ret tt ∧
  log (handle_ui_keys false s) =
    [EvLock event_lock;
     EvRead v_keys; EvRead v_keys; EvRead v_keys_lf; EvRead v_keys; EvRead v_keys_lf;
     EvRead v_keys; EvRead v_keys; EvRead v_keys; EvRead v_keys;
     EvCall (handle_rewind 0);
     EvUnlock event_lock;
     EvRead v_keys_size; EvRead v_keys; EvWrite v_keys_lf] ∧
  outside event_lock false (log (handle_ui_keys false s))
    = [EvRead v_keys_size; EvRead v_keys; EvWrite v_keys_lf] ∧
  ¬ under_lock event_lock (log (handle_ui_keys false s)) ∧
  under_lock event_lock (log (handle_ui_keys_locked false s)) ∧
  under_lock event_lock (log (process_events f3_held [] s)) ∧
  let s1 := final (handle_ui_keys_locked false s) in
  let s2 := final (process_events f3_held [] s1) in
  let s3 := final (handle_ui_keys_commit s2) in
  (EvCall (corrupt_chance_add 4096) ∉ log (handle_ui_keys_locked false s)) ∧
  keys s2 !! Z.to_nat SDL_SCANCODE_F3 = Some 1 ∧
  keys_lf s2 !! Z.to_nat SDL_SCANCODE_F3 = Some 0 ∧
  keys_lf s3 !! Z.to_nat SDL_SCANCODE_F3 = Some 1 ∧
  KEY_PRESSED (keys s2) (keys_lf s2) (Z.to_nat SDL_SCANCODE_F3) = Some 1 ∧
  KEY_PRESSED (keys s3) (keys_lf s3) (Z.to_nat SDL_SCANCODE_F3) = Some 0 ∧
  (EvCall (corrupt_chance_add 4096) ∉ log (handle_ui_keys_locked false s3)).
Proof.
  cbv zeta.
  assert (Hlog : log (handle_ui_keys false quiet_keyboard) =
    [EvLock event_lock;
     EvRead v_keys; EvRead v_keys; EvRead v_keys_lf; EvRead v_keys; EvRead v_keys_lf;
     EvRead v_keys; EvRead v_keys; EvRead v_keys; EvRead v_keys;
     EvCall (handle_rewind 0);
     EvUnlock event_lock;
     EvRead v_keys_size; EvRead v_keys; EvWrite v_keys_lf])
    by (vm_compute; reflexivity).
  split; [vm_compute; reflexivity|]. split; [exact Hlog|].
  split; [rewrite Hlog; reflexivity|].
  split; [rewrite Hlog; unfold under_lock; cbn; intros [H _]; discriminate H|].
  split; [unfold under_lock; split; vm_compute; reflexivity|].
  split; [unfold under_lock; split; vm_compute; reflexivity|].
  split.
  { assert (E : log (handle_ui_keys_locked false quiet_keyboard) =
      [EvLock event_lock;
       EvRead v_keys; EvRead v_keys; EvRead v_keys_lf; EvRead v_keys; EvRead v_keys_lf;
       EvRead v_keys; EvRead v_keys; EvRead v_keys; EvRead v_keys;
       EvCall (handle_rewind 0); EvUnlock event_lock]) by (vm_compute; reflexivity).
    rewrite E. rewrite !elem_of_cons, elem_of_nil. intuition discriminate. }
  do 5 (split; [vm_compute; reflexivity|]).
  assert (E : log (handle_ui_keys_locked false
                (final (handle_ui_keys_commit
                   (final (process_events f3_held []
                      (final (handle_ui_keys_locked false quiet_keyboard))))))) =
      [EvLock event_lock;
       EvRead v_keys; EvRead v_keys; EvRead v_keys_lf; EvRead v_keys; EvRead v_keys_lf;
       EvRead v_keys; EvRead v_keys; EvRead v_keys; EvRead v_keys;
       EvCall (handle_rewind 0); EvUnlock event_lock]) by (vm_compute; reflexivity).
  rewrite E. rewrite !elem_of_cons, elem_of_nil. intuition discriminate.
Qed.


(** ** The debug console: [sdldbg_scroll] *)

Lemma memcpy_ascending_spec (a0 : list Z) (off : nat) :
  ∀ (n i : nat) (cur : list Z),
    (i + n + off ≤ length a0)%nat →
    cur = take i (drop off a0) ++ drop i a0 →
    memcpy_ascending n i off cur
      = Some (take (i + n) (drop off a0) ++ drop (i + n) a0).
Proof.
  induction n as [|n IH]; intros i cur Hlen ->.
  - rewrite Nat.add_0_r. reflexivity.
  - cbn [memcpy_ascending].
    assert (Hti : length (take i (drop off a0)) = i)
      by (rewrite length_take, length_drop; lia).
    destruct (lookup_lt_is_Some_2 a0 (i + off)%nat ltac:(lia)) as [v Hv].
    destruct (lookup_lt_is_Some_2 a0 i ltac:(lia)) as [x0 Hx0].
    rewrite lookup_app_r by lia. rewrite Hti, lookup_drop.
    replace (i + (i + off - i))%nat with (i + off)%nat by lia.
    rewrite Hv. cbn [mbind option_bind].
    rewrite (IH (S i)); [f_equal; f_equal; f_equal; lia|lia|].
    rewrite insert_app_r_alt by lia. rewrite Hti, Nat.sub_diag.
    rewrite (drop_S a0 x0 i Hx0). cbn [insert list_insert].
    rewrite (take_S_r (drop off a0) i v).
    + rewrite <- app_assoc. reflexivity.
    + rewrite lookup_drop. rewrite <- Hv. f_equal. lia.
Qed.

Lemma memcpy_ascending_scrolled (a : list Z) :
  Z.of_nat (length a) = 128 * 60 →
  memcpy_ascending (Z.to_nat (128 * 59)) 0 128 a = Some (scrolled a).
Proof.
  intros Hlen.
  rewrite (memcpy_ascending_spec a 128 (Z.to_nat (128 * 59)) 0 a).
  - reflexivity.
  - lia.
  - rewrite take_0, drop_0. reflexivity.
Qed.

Lemma length_scrolled (a : list Z) :
  Z.of_nat (length a) = 128 * 60 → length (scrolled a) = length a.
Proof.
  intros Hlen. unfold scrolled.
  rewrite length_app, length_take, !length_drop. lia.
Qed.

Lemma lookup_scrolled_above (a : list Z) (i : nat) :
  Z.of_nat (length a) = 128 * 60 → (Z.of_nat i < 128 * 59) →
  scrolled a !! i = a !! (i + 128)%nat.
Proof.
  intros Hlen Hi. unfold scrolled.
  rewrite lookup_app_l by (rewrite length_take, length_drop; lia).
  rewrite lookup_take_lt by lia. rewrite lookup_drop. f_equal. lia.
Qed.

Lemma lookup_scrolled_bottom (a : list Z) (i : nat) :
  Z.of_nat (length a) = 128 * 60 → (128 * 59 ≤ Z.of_nat i) →
  scrolled a !! i = a !! i.
Proof.
  intros Hlen Hi. unfold scrolled.
  rewrite lookup_app_r by (rewrite length_take, length_drop; lia).
  rewrite length_take, length_drop, lookup_drop. f_equal. lia.
Qed.

(** X1. [sdldbg_scroll] on arrays of the declared size returns, although
    its two [memcpy] calls copy between overlapping regions: copying
    upwards from the lowest address, every row of both arrays ends up
    holding the row that was below it, the cursor and colour are untouched,
    and the last row is not cleared but keeps what it held (so it now shows
    twice). *)
Theorem sdldbg_scroll_rows (k : console) :
  Z.of_nat (length (debug_contents k)) = 128 * 60 →
  Z.of_nat (length (debug_colors k)) = 128 * 60 →
  ∃ k', sdldbg_scroll k = Some k' ∧
    debug_cur_x k' = debug_cur_x k ∧ debug_cur_y k' = debug_cur_y k ∧
    debug_cur_color k' = debug_cur_color k ∧
    length (debug_contents k') = length (debug_contents k) ∧
    length (debug_colors k') = length (debug_colors k) ∧
    (∀ row col, 0 ≤ row < 59 → 0 ≤ col < 128 →
       debug_contents k' !! Z.to_nat (row * 128 + col)
         = debug_contents k !! Z.to_nat ((row + 1) * 128 + col) ∧
       debug_colors k' !! Z.to_nat (row * 128 + col)
         = debug_colors k !! Z.to_nat ((row + 1) * 128 + col)) ∧
    (∀ col, 0 ≤ col < 128 →
       debug_contents k' !! Z.to_nat (59 * 128 + col)
         = debug_contents k !! Z.to_nat (59 * 128 + col) ∧
       debug_colors k' !! Z.to_nat (59 * 128 + col)
         = debug_colors k !! Z.to_nat (59 * 128 + col)).
Proof.
  intros Hct Hcl. unfold sdldbg_scroll.
  rewrite (memcpy_ascending_scrolled _ Hct), (memcpy_ascending_scrolled _ Hcl).
  cbn [mbind option_bind]. eexists. split; [reflexivity|].
  cbn [debug_contents debug_colors debug_cur_x debug_cur_y debug_cur_color].
  do 3 (split; [reflexivity|]).
  split; [apply length_scrolled, Hct|]. split; [apply length_scrolled, Hcl|].
  split.
  - intros row col Hrow Hcol.
    rewrite !lookup_scrolled_above by lia.
    split; f_equal; lia.
  - intros col Hcol. rewrite !lookup_scrolled_bottom by lia. split; reflexivity.
Qed.

Lemma sdldbg_scroll_rows_witness :
  ∃ k', sdldbg_scroll console0 = Some k' ∧ debug_cur_y k' = 0.
Proof.
  destruct (sdldbg_scroll_rows console0) as (k' & Hk & _ & Hy & _).
  - vm_compute. reflexivity.
  - vm_compute. reflexivity.
  - exists k'. split; [exact Hk|exact Hy].
Defined.

(** ** The debug console: [sdldbg_puts] *)

Lemma sdldbg_scroll_scrolled (k : console) :
  Z.of_nat (length (debug_contents k)) = 128 * 60 →
  Z.of_nat (length (debug_colors k)) = 128 * 60 →
  sdldbg_scroll k =
    Some (Console (scrolled (debug_contents k)) (scrolled (debug_colors k))
                  (debug_cur_color k) (debug_cur_x k) (debug_cur_y k)).
Proof.
  intros Hct Hcl. unfold sdldbg_scroll.
  rewrite (memcpy_ascending_scrolled _ Hct), (memcpy_ascending_scrolled _ Hcl).
  reflexivity.
Qed.

(** The last two tests of the loop body bring any [Uint8] cursor back on
    the grid. *)
Lemma wrap_row_column_ok (k : console) :
  Z.of_nat (length (debug_contents k)) = 128 * 60 →
  Z.of_nat (length (debug_colors k)) = 128 * 60 →
  0 ≤ debug_cur_x k < 256 → 0 ≤ debug_cur_y k < 256 →
  0 ≤ debug_cur_color k < 256 →
  ∃ k', wrap_row (wrap_column k) = Some k' ∧ console_ok k'.
Proof.
  destruct k as [ct cl col x y]; cbn. intros Hct Hcl Hx Hy Hcol.
  unfold wrap_column, wrap_row, uint8; cbn.
  pose proof (Z.mod_pos_bound (y + 1) 256 ltac:(lia)) as Hm.
  destruct (Z.leb_spec 128 x); cbn.
  - destruct (Z.leb_spec 60 ((y + 1) mod 256)); cbn.
    + rewrite sdldbg_scroll_scrolled by assumption. cbn.
      eexists; split; [reflexivity|].
      unfold console_ok; cbn. rewrite !length_scrolled by assumption. lia.
    + eexists; split; [reflexivity|]. unfold console_ok; cbn. lia.
  - destruct (Z.leb_spec 60 y); cbn.
    + rewrite sdldbg_scroll_scrolled by assumption. cbn.
      eexists; split; [reflexivity|].
      unfold console_ok; cbn. rewrite !length_scrolled by assumption. lia.
    + eexists; split; [reflexivity|]. unfold console_ok; cbn. lia.
Qed.

Lemma store_char_in_range (c : Z) (k : console) :
  Z.of_nat (length (debug_contents k)) = 128 * 60 →
  Z.of_nat (length (debug_colors k)) = 128 * 60 →
  0 ≤ debug_cur_y k * 128 + debug_cur_x k < 128 * 60 →
  store_char c k =
    Some (Console
            (<[Z.to_nat (debug_cur_y k * 128 + debug_cur_x k) := c]> (debug_contents k))
            (<[Z.to_nat (debug_cur_y k * 128 + debug_cur_x k) := debug_cur_color k]>
               (debug_colors k))
            (debug_cur_color k) (uint8 (debug_cur_x k + 1)) (debug_cur_y k)).
Proof.
  intros Hct Hcl Hi. unfold store_char.
  destruct (decide _) as [|Hn]; [reflexivity|]. exfalso. apply Hn. lia.
Qed.

Lemma printable_bounds (c : Z) : printable c = true ↔ 32 ≤ c < 128.
Proof. unfold printable. rewrite andb_true_iff, Z.leb_le, Z.ltb_lt. tauto. Qed.

Lemma sdldbg_putc_ok (c : Z) (k : console) :
  console_ok k → 0 ≤ c < 256 →
  ∃ k', sdldbg_putc c k = Some k' ∧ console_ok k'.
Proof.
  intros (Hct & Hcl & Hx & Hy & Hcol) Hc. unfold sdldbg_putc.
  destruct (printable c) eqn:Ep.
  - apply printable_bounds in Ep.
    rewrite store_char_in_range by (assumption || lia). cbn [mbind option_bind].
    unfold newline, select_color.
    replace ((c =? 10) || (c =? 13)) with false by (symmetry; apply orb_false_iff; lia).
    replace (240 <=? c) with false by lia.
    apply wrap_row_column_ok; cbn; unfold uint8;
      rewrite ?length_insert; try assumption;
      first [apply Z.mod_pos_bound; lia | lia].
  - cbn [mbind option_bind]. unfold newline, select_color.
    destruct ((c =? 10) || (c =? 13)), (240 <=? c);
      apply wrap_row_column_ok; cbn; unfold uint8; try assumption;
      first [apply Z.mod_pos_bound; lia | lia].
Qed.

(** Every byte string is printed in full from a cursor on the grid, and
    the cursor ends on the grid. *)
Lemma sdldbg_puts_returns (s : list Z) (k : console) :
  console_ok k → Forall (λ c, 0 ≤ c < 256) s →
  ∃ k', sdldbg_puts s k = Some (0, k') ∧ console_ok k'.
Proof.
  revert k. induction s as [|c s IH]; intros k Hok Hs; cbn [sdldbg_puts].
  - eauto.
  - destruct (decide (c = 0)); [eauto|].
    inversion Hs as [|c' s' Hc Hs']; subst.
    destruct (sdldbg_putc_ok c k Hok Hc) as (k1 & E & Hok1).
    rewrite E. cbn [mbind option_bind]. apply IH; assumption.
Qed.

(** X2. [sdldbg_puts], started with the cursor on the grid, never writes
    outside [debug_contents] or [debug_colors] whatever bytes the string
    holds: it returns 0 and leaves both arrays at their size and the cursor
    on the grid again. *)
Theorem sdldbg_puts_safe (s : list Z) (k : console) :
  console_ok k → Forall (λ c, 0 ≤ c < 256) s →
  ∃ k', sdldbg_puts s k = Some (0, k') ∧ console_ok k'.
Proof. exact (sdldbg_puts_returns s k). Qed.

Lemma console0_ok : console_ok console0.
Proof. unfold console_ok. vm_compute. intuition discriminate. Qed.

Lemma sdldbg_puts_safe_witness :
  ∃ k', sdldbg_puts [72; 105; 10; 250; 200] console0 = Some (0, k') ∧ console_ok k'.
Proof.
  apply (sdldbg_puts_safe [72; 105; 10; 250; 200] console0).
  - unfold console_ok. vm_compute. intuition discriminate.
  - repeat constructor; lia.
Defined.

(** X3. Printing a concatenation is printing the parts one after the other,
    as long as the first part holds no 0 byte; a 0 byte ends the string and
    nothing after it is printed. *)
Theorem sdldbg_puts_app (a b : list Z) (k : console) :
  (0 ∉ a →
   sdldbg_puts (a ++ b) k = r ← sdldbg_puts a k; sdldbg_puts b r.2) ∧
  sdldbg_puts (a ++ 0 :: b) k = sdldbg_puts a k.
Proof.
  split.
  - revert k. induction a as [|c a IH]; intros k Hz; cbn.
    + reflexivity.
    + apply not_elem_of_cons in Hz as [Hc Ha].
      destruct (decide (c = 0)); [congruence|].
      destruct (sdldbg_putc c k) as [k1|]; cbn; [apply IH, Ha|reflexivity].
  - revert k. induction a as [|c a IH]; intros k; cbn.
    + reflexivity.
    + destruct (decide (c = 0)); [reflexivity|].
      destruct (sdldbg_putc c k) as [k1|]; cbn; [apply IH|reflexivity].
Qed.

Lemma sdldbg_puts_app_witness :
  sdldbg_puts ([72; 105] ++ [10; 33]) console0
    = r ← sdldbg_puts [72; 105] console0; sdldbg_puts [10; 33] r.2.
Proof.
  apply (proj1 (sdldbg_puts_app [72; 105] [10; 33] console0)).
  rewrite !elem_of_cons, elem_of_nil. intros [H|[H|[]]]; discriminate H.
Defined.

(** Case analysis on a comparison of the loop body, keeping what it says. *)
Ltac putc_case t :=
  let E := fresh "E" in
  destruct t eqn:E;
  [ first [apply Z.leb_le in E | apply Z.ltb_lt in E | apply Z.eqb_eq in E]
  | first [apply Z.leb_gt in E | apply Z.ltb_ge in E | apply Z.eqb_neq in E] ].

Ltac putc_cases :=
  repeat (match goal with
          | |- context [decide ?P] => destruct (decide P)
          | |- context [(?a <=? ?b)] => putc_case (a <=? b)
          | |- context [(?a <? ?b)] => putc_case (a <? b)
          | |- context [(?a =? ?b)] => putc_case (a =? b)
          end; cbn in *; try lia).

Ltac unfold_putc :=
  unfold sdldbg_putc, store_char, newline, select_color, wrap_column, wrap_row,
    printable, uint8; cbn.

Lemma sdldbg_putc_printable (c : Z) (k : console) :
  console_ok k → printable c = true → debug_cur_x k + 1 < 128 →
  sdldbg_putc c k =
    Some (Console
            (<[Z.to_nat (debug_cur_y k * 128 + debug_cur_x k) := c]> (debug_contents k))
            (<[Z.to_nat (debug_cur_y k * 128 + debug_cur_x k) := debug_cur_color k]>
               (debug_colors k))
            (debug_cur_color k) (debug_cur_x k + 1) (debug_cur_y k)).
Proof.
  intros (Hct & Hcl & Hx & Hy & Hcol) Hp Hx1. apply printable_bounds in Hp.
  destruct k as [ct cl col x y]; cbn in *. unfold_putc.
  assert (Hm : (x + 1) mod 256 = x + 1) by (apply Z.mod_small; lia).
  rewrite Hm. putc_cases. reflexivity.
Qed.

Lemma sdldbg_putc_last_column (c : Z) (k : console) :
  console_ok k → printable c = true → debug_cur_x k = 127 → debug_cur_y k < 59 →
  sdldbg_putc c k =
    Some (Console
            (<[Z.to_nat (debug_cur_y k * 128 + 127) := c]> (debug_contents k))
            (<[Z.to_nat (debug_cur_y k * 128 + 127) := debug_cur_color k]>
               (debug_colors k))
            (debug_cur_color k) 0 (debug_cur_y k + 1)).
Proof.
  intros (Hct & Hcl & Hx & Hy & Hcol) Hp Hx1 Hy1. apply printable_bounds in Hp.
  destruct k as [ct cl col x y]; cbn in *. subst x. unfold_putc.
  assert (Hm : (y + 1) mod 256 = y + 1) by (apply Z.mod_small; lia).
  change ((127 + 1) mod 256) with 128.
  putc_cases; rewrite ?Hm in *; try lia. reflexivity.
Qed.

Lemma sdldbg_puts_printable (s : list Z) :
  ∀ k : console,
    console_ok k → Forall (λ c, printable c = true) s →
    debug_cur_x k + Z.of_nat (length s) < 128 →
    let i := Z.to_nat (debug_cur_y k * 128 + debug_cur_x k) in
    sdldbg_puts s k =
      Some (0, Console
                 (take i (debug_contents k) ++ s
                    ++ drop (i + length s) (debug_contents k))
                 (take i (debug_colors k) ++ replicate (length s) (debug_cur_color k)
                    ++ drop (i + length s) (debug_colors k))
                 (debug_cur_color k) (debug_cur_x k + Z.of_nat (length s))
                 (debug_cur_y k)).
Proof.
  induction s as [|c s IH]; intros k Hok Hs Hx i.
  - cbn. rewrite Nat.add_0_r, !take_drop, Z.add_0_r. destruct k; reflexivity.
  - inversion Hs as [|c' s' Hc Hs']; subst c' s'.
    cbn [sdldbg_puts length] in *.
    destruct (decide (c = 0)) as [->|_]; [discriminate Hc|].
    rewrite (sdldbg_putc_printable c k Hok Hc) by lia. cbn [mbind option_bind].
    destruct Hok as (Hct & Hcl & Hx0 & Hy0 & Hcol).
    rewrite IH; cbn [debug_contents debug_colors debug_cur_color debug_cur_x debug_cur_y];
      [|unfold console_ok; cbn; rewrite !length_insert; lia|exact Hs'|lia].
    fold i.
    replace (Z.to_nat (debug_cur_y k * 128 + (debug_cur_x k + 1))) with (S i) by lia.
    assert (Hi1 : (i < length (debug_contents k))%nat) by lia.
    assert (Hi2 : (i < length (debug_colors k))%nat) by lia.
    rewrite (take_S_r _ i c) by (apply list_lookup_insert_eq; exact Hi1).
    rewrite (take_S_r _ i (debug_cur_color k)) by (apply list_lookup_insert_eq; exact Hi2).
    rewrite !take_insert_ge by lia. rewrite !drop_insert_lt by lia.
    rewrite <- !app_assoc. cbn [app replicate].
    replace (S i + length s)%nat with (i + S (length s))%nat by lia.
    do 2 f_equal. f_equal. lia.
Qed.

(** X4. Printing [n] printable characters that fit in the rest of the row
    (the cursor stays left of column 128) writes exactly these characters
    into [debug_contents], and the current colour into [debug_colors], at
    the [n] cells from the cursor on; every other cell keeps its value, the
    cursor moves [n] columns to the right in its row, and the colour is
    unchanged.  A printable character written in column 127 of a row above
    the last takes the cursor to column 0 of the next row. *)
Theorem sdldbg_puts_writes_row (s : list Z) (k : console) :
  console_ok k → Forall (λ c, printable c = true) s →
  debug_cur_x k + Z.of_nat (length s) < 128 →
  let i := Z.to_nat (debug_cur_y k * 128 + debug_cur_x k) in
  ∃ k', sdldbg_puts s k = Some (0, k') ∧
    debug_cur_x k' = debug_cur_x k + Z.of_nat (length s) ∧
    debug_cur_y k' = debug_cur_y k ∧
    debug_cur_color k' = debug_cur_color k ∧
    (∀ j c, s !! j = Some c →
       debug_contents k' !! (i + j)%nat = Some c ∧
       debug_colors k' !! (i + j)%nat = Some (debug_cur_color k)) ∧
    (∀ m, (m < i ∨ i + length s ≤ m)%nat →
       debug_contents k' !! m = debug_contents k !! m ∧
       debug_colors k' !! m = debug_colors k !! m) ∧
    (∀ c, printable c = true → debug_cur_x k' = 127 → debug_cur_y k' < 59 →
       ∃ k'', sdldbg_putc c k' = Some k'' ∧
         debug_cur_x k'' = 0 ∧ debug_cur_y k'' = debug_cur_y k' + 1).
Proof.
  intros Hok Hs Hx i.
  rewrite (sdldbg_puts_printable s k Hok Hs Hx). fold i.
  destruct Hok as (Hct & Hcl & Hx0 & Hy0 & Hcol).
  assert (Hi : (i + length s ≤ length (debug_contents k))%nat) by lia.
  assert (Hi' : (i + length s ≤ length (debug_colors k))%nat) by lia.
  eexists. split; [reflexivity|].
  cbn [debug_contents debug_colors debug_cur_color debug_cur_x debug_cur_y].
  do 3 (split; [reflexivity|]). split; [|split].
  - intros j c Hj. apply lookup_lt_Some in Hj as Hjl. split.
    + rewrite lookup_app_r by (rewrite length_take; lia).
      rewrite length_take_le by lia.
      rewrite lookup_app_l by lia.
      replace (i + j - i)%nat with j by lia. exact Hj.
    + rewrite lookup_app_r by (rewrite length_take; lia).
      rewrite length_take_le by lia.
      rewrite lookup_app_l by (rewrite length_replicate; lia).
      apply lookup_replicate_2. lia.
  - intros m [Hm | Hm].
    + rewrite !lookup_app_l by (rewrite length_take; lia).
      rewrite !lookup_take_lt by lia. split; reflexivity.
    + rewrite !lookup_app_r by (rewrite length_take; lia).
      rewrite !length_take_le by lia.
      rewrite !lookup_app_r by (rewrite ?length_replicate; lia).
      rewrite length_replicate, !lookup_drop. split; f_equal; lia.
  - intros c Hc Hx' Hy'. eexists. split.
    + apply sdldbg_putc_last_column; try assumption.
      unfold console_ok; cbn.
      rewrite !length_app, !length_take, !length_drop, length_replicate. lia.
    + cbn. split; reflexivity.
Qed.

Lemma sdldbg_puts_writes_row_witness :
  ∃ k', sdldbg_puts [72; 105] console0 = Some (0, k') ∧
    debug_cur_x k' = 2 ∧ debug_contents k' !! 1%nat = Some 105.
Proof.
  destruct (sdldbg_puts_writes_row [72; 105] console0) as (k' & E & Hx & _ & _ & Hw & _).
  - unfold console_ok. vm_compute. intuition discriminate.
  - repeat constructor.
  - vm_compute. reflexivity.
  - exists k'. split; [exact E|]. split; [exact Hx|].
    exact (proj1 (Hw 1%nat 105 eq_refl)).
Defined.

(** X5. Bytes that are neither printable, nor LF or CR, nor 240 and above
    (control characters and 128 to 239) are skipped: printing one changes
    nothing.  A byte [c] from 240 up prints nothing either; it sets the
    current colour to [c - 240], a value below 16, and leaves the arrays and
    the cursor as they are. *)
Theorem sdldbg_puts_escapes (c : Z) (k : console) :
  console_ok k → 0 < c < 256 →
  (c < 32 ∨ 128 ≤ c < 240 → c ≠ 10 → c ≠ 13 → sdldbg_puts [c] k = Some (0, k)) ∧
  (240 ≤ c →
     sdldbg_puts [c] k =
       Some (0, Console (debug_contents k) (debug_colors k) (c - 240)
                        (debug_cur_x k) (debug_cur_y k)) ∧
     0 ≤ c - 240 < 16).
Proof.
  intros (Hct & Hcl & Hx & Hy & Hcol) Hc.
  destruct k as [ct cl col x y]; cbn in *.
  split.
  - intros Hr H10 H13. destruct (decide (c = 0)); [lia|].
    unfold_putc. putc_cases; reflexivity.
  - intros Hr. split; [|lia]. destruct (decide (c = 0)); [lia|].
    unfold_putc.
    assert (Hm : (c - 240) mod 256 = c - 240) by (apply Z.mod_small; lia).
    putc_cases; rewrite ?Hm in *; try lia; reflexivity.
Qed.

Lemma sdldbg_puts_escapes_witness :
  sdldbg_puts [200] console0 = Some (0, console0) ∧
  (sdldbg_puts [243] console0 =
     Some (0, Console (debug_contents console0) (debug_colors console0) (243 - 240)
                      (debug_cur_x console0) (debug_cur_y console0)) ∧
   0 ≤ 243 - 240 < 16).
Proof.
  assert (Hok : console_ok console0)
    by (unfold console_ok; vm_compute; intuition discriminate).
  split.
  - apply (proj1 (sdldbg_puts_escapes 200 console0 Hok ltac:(lia))); lia.
  - apply (proj2 (sdldbg_puts_escapes 243 console0 Hok ltac:(lia))). lia.
Defined.

(** X6. LF and CR both end the line.  Above the last row the cursor goes to
    column 0 of the next row and nothing else changes.  On the last row the
    console scrolls instead and the cursor goes to column 0 of that row;
    the row is not blanked: it still holds the line just ended, which now
    also stands in the row above. *)
Theorem sdldbg_puts_newline (c : Z) (k : console) :
  console_ok k → c = 10 ∨ c = 13 →
  (debug_cur_y k < 59 →
     sdldbg_puts [c] k =
       Some (0, Console (debug_contents k) (debug_colors k) (debug_cur_color k)
                        0 (debug_cur_y k + 1))) ∧
  (debug_cur_y k = 59 →
     sdldbg_puts [c] k =
       Some (0, Console (scrolled (debug_contents k)) (scrolled (debug_colors k))
                        (debug_cur_color k) 0 59) ∧
     ∀ col, 0 ≤ col < 128 →
       scrolled (debug_contents k) !! Z.to_nat (59 * 128 + col)
         = debug_contents k !! Z.to_nat (59 * 128 + col) ∧
       scrolled (debug_contents k) !! Z.to_nat (58 * 128 + col)
         = debug_contents k !! Z.to_nat (59 * 128 + col)).
Proof.
  intros (Hct & Hcl & Hx & Hy & Hcol) Hc.
  destruct k as [ct cl col x y]; cbn in *.
  assert (Hm : (y + 1) mod 256 = y + 1) by (apply Z.mod_small; lia).
  assert (Hc0 : c ≠ 0) by lia.
  split.
  - intros Hy1. destruct (decide (c = 0)); [lia|].
    unfold_putc. putc_cases; rewrite ?Hm in *; try lia; reflexivity.
  - intros ->. split.
    + destruct (decide (c = 0)); [lia|].
      unfold sdldbg_putc, newline, select_color, wrap_column, wrap_row, printable, uint8.
      cbn. change ((59 + 1) mod 256) with 60.
      destruct Hc as [-> | ->]; cbn;
        rewrite sdldbg_scroll_scrolled by assumption; reflexivity.
    + intros j Hj. rewrite lookup_scrolled_bottom by lia.
      rewrite lookup_scrolled_above by lia. split; [reflexivity|]. f_equal. lia.
Qed.

Lemma sdldbg_puts_newline_witness :
  sdldbg_puts [10] console0 =
    Some (0, Console (debug_contents console0) (debug_colors console0)
                     (debug_cur_color console0) 0 (debug_cur_y console0 + 1)).
Proof.
  apply (proj1 (sdldbg_puts_newline 10 console0
                  ltac:(unfold console_ok; vm_compute; intuition discriminate)
                  ltac:(left; reflexivity))).
  reflexivity.
Defined.

(** X7. [mvsdldbg_puts] takes the cursor as it is given, reduced to
    [Uint8], without checking it against the grid.  When the string starts
    with a printable character, the call writes past the end of the arrays
    exactly when [128 * y + x] (after the reduction) is 7680 or more;
    otherwise, columns from 128 up included, it returns 0 with the cursor
    back on the grid. *)
Theorem mvsdldbg_puts_unchecked (c : Z) (s : list Z) (x y : Z) (k : console) :
  console_ok k → printable c = true → Forall (λ c, 0 ≤ c < 256) s →
  (mvsdldbg_puts (c :: s) x y k = None ↔ 128 * 60 ≤ 128 * (y mod 256) + x mod 256) ∧
  (128 * (y mod 256) + x mod 256 < 128 * 60 →
     ∃ k', mvsdldbg_puts (c :: s) x y k = Some (0, k') ∧ console_ok k').
Proof.
  intros (Hct & Hcl & Hx & Hy & Hcol) Hp Hs.
  apply printable_bounds in Hp as Hc.
  pose proof (Z.mod_pos_bound x 256 ltac:(lia)) as Hxm.
  pose proof (Z.mod_pos_bound y 256 ltac:(lia)) as Hym.
  unfold mvsdldbg_puts. cbn [sdldbg_puts].
  destruct (decide (c = 0)); [lia|].
  set (k0 := Console (debug_contents k) (debug_colors k) (debug_cur_color k)
                     (uint8 x) (uint8 y)).
  destruct (decide (128 * 60 ≤ 128 * (y mod 256) + x mod 256)) as [Hout | Hin].
  - assert (E : sdldbg_putc c k0 = None).
    { unfold sdldbg_putc. rewrite Hp. unfold store_char, k0, uint8. cbn.
      destruct (decide _) as [Hd|]; [lia|]. reflexivity. }
    rewrite E. cbn. split; [tauto|lia].
  - assert (Hk1 : ∃ k1, sdldbg_putc c k0 = Some k1 ∧ console_ok k1).
    { unfold sdldbg_putc. rewrite Hp.
      rewrite store_char_in_range by (unfold k0, uint8; cbn; assumption || lia).
      cbn [mbind option_bind]. unfold newline, select_color.
      replace ((c =? 10) || (c =? 13)) with false by (symmetry; apply orb_false_iff; lia).
      replace (240 <=? c) with false by lia.
      pose proof (Z.mod_pos_bound (x mod 256 + 1) 256 ltac:(lia)) as Hx1.
      apply wrap_row_column_ok; unfold k0, uint8; cbn;
        rewrite ?length_insert; assumption || lia. }
    destruct Hk1 as (k1 & E1 & Hok1).
    rewrite E1. cbn [mbind option_bind].
    destruct (sdldbg_puts_returns s k1 Hok1 Hs) as (k' & E' & Hok').
    rewrite E'. split; [split; [discriminate|lia]|].
    intros _. exists k'. split; [reflexivity|exact Hok'].
Qed.

Lemma mvsdldbg_puts_unchecked_witness :
  mvsdldbg_puts [65] 0 60 console0 = None ∧
  ∃ k', mvsdldbg_puts [65] 200 58 console0 = Some (0, k') ∧ console_ok k'.
Proof.
  assert (Hok : console_ok console0)
    by (unfold console_ok; vm_compute; intuition discriminate).
  destruct (mvsdldbg_puts_unchecked 65 [] 0 60 console0 Hok eq_refl ltac:(constructor))
    as [[_ Hnone] _].
  destruct (mvsdldbg_puts_unchecked 65 [] 200 58 console0 Hok eq_refl ltac:(constructor))
    as [_ Hsome].
  split; [apply Hnone; vm_compute; discriminate|apply Hsome; vm_compute; reflexivity].
Defined.

(** ** The debug overlay *)

Lemma charrect_div_mod (c : Z) :
  32 ≤ c →
  charrect c = Rect ((c - 32) mod 16 * 5) ((c - 32) / 16 * 8) 5 8.
Proof.
  intros Hc. unfold charrect.
  rewrite Z.rem_mod_nonneg by lia. rewrite Z.quot_div_nonneg by lia. reflexivity.
Qed.

(** X8. For a character from 32 up, as drawn by the overlay, [charrect] is
    a 5 by 8 cell whose corner is a multiple of (5, 8); for a [Uint8]
    character it lies in the first 80 by 112 pixels of the font texture;
    the space, 32, sits at the origin; and different characters get
    different cells. *)
Theorem charrect_cells :
  (∀ c, 32 ≤ c < 256 →
     rect_w (charrect c) = 5 ∧ rect_h (charrect c) = 8 ∧
     0 ≤ rect_x (charrect c) ∧ rect_x (charrect c) + rect_w (charrect c) ≤ 80 ∧
     0 ≤ rect_y (charrect c) ∧ rect_y (charrect c) + rect_h (charrect c) ≤ 112 ∧
     rect_x (charrect c) mod 5 = 0 ∧ rect_y (charrect c) mod 8 = 0) ∧
  charrect 32 = Rect 0 0 5 8 ∧
  (∀ c c', 32 ≤ c → 32 ≤ c' → charrect c = charrect c' → c = c').
Proof.
  split; [|split].
  - intros c Hc. rewrite charrect_div_mod by lia. cbn.
    pose proof (Z.mod_pos_bound (c - 32) 16 ltac:(lia)) as Hm.
    pose proof (Z.div_mod (c - 32) 16 ltac:(lia)) as Hd.
    rewrite !Z.mod_mul by lia.
    repeat split; lia.
  - reflexivity.
  - intros c c' Hc Hc'. rewrite !charrect_div_mod by lia. intros [= Hx Hy].
    pose proof (Z.div_mod (c - 32) 16 ltac:(lia)).
    pose proof (Z.div_mod (c' - 32) 16 ltac:(lia)). lia.
Qed.

Lemma charrect_cells_witness :
  rect_x (charrect 65) + rect_w (charrect 65) ≤ 80 ∧
  (charrect 65 = charrect 65 → 65 = 65).
Proof.
  destruct charrect_cells as (Hin & _ & Hinj).
  destruct (Hin 65 ltac:(lia)) as (_ & _ & _ & Hx & _).
  split; [exact Hx|]. apply Hinj; lia.
Defined.




(** ** The keyboard snapshot: [handle_ui_keys] and [process_events] *)

Lemma bind_returns {A B} (m : M A) (k : A → M B) (s : state) (b : B) :
  result ((m ≫= k) s) = Ret b →
  ∃ a, result (m s) = Ret a ∧
    result (k a (final (m s))) = Ret b ∧
    final ((m ≫= k) s) = final (k a (final (m s))) ∧
    log ((m ≫= k) s) = log (m s) ++ log (k a (final (m s))).
Proof.
  unfold mbind, M_bind, result, final, log.
  destruct (m s) as [[[a|r] s1] t1]; cbn; [|discriminate].
  destruct (k a s1) as [[r2 s2] t2] eqn:E; cbn. intros ->. exists a. rewrite E.
  repeat split; reflexivity.
Qed.

Lemma handle_ui_keys_locked_keeps_keys (rp : bool) :
  keeps (λ s, (keys s, keys_lf s, keys_size s)) (handle_ui_keys_locked rp).
Proof. unfold handle_ui_keys_locked. auto 30 with keeps. Qed.

Lemma handle_ui_keys_commit_keeps_keys :
  keeps (λ s, (keys s, keys_size s, show_debugger s)) handle_ui_keys_commit.
Proof. unfold handle_ui_keys_commit. auto 30 with keeps. Qed.

Lemma handle_ui_keys_commit_copies (s : state) :
  keys_ok s → result (handle_ui_keys_commit s) = Ret tt ∧
              keys_lf (final (handle_ui_keys_commit s)) = keys s.
Proof.
  intros [Hk Hl]. unfold handle_ui_keys_commit, memcpy_keys_lf. run_m.
  destruct (decide (keys_size s = 0)) as [Hz|Hnz]; cbn.
  - split; [reflexivity|].
    assert (Hk0 : length (keys s) = 0%nat) by lia.
    assert (Hl0 : length (keys_lf s) = 0%nat) by lia.
    apply nil_length_inv in Hk0, Hl0. congruence.
  - destruct (decide _) as [|Hn]; cbn; [|exfalso; apply Hn; lia].
    split; [reflexivity|].
    rewrite take_ge by lia. rewrite drop_ge by lia. apply app_nil_r.
Qed.

Lemma KEY_no_edge (k : list Z) (i : nat) (v : Z) :
  k !! i = Some v → KEY_PRESSED k k i = Some 0 ∧ KEY_RELEASED k k i = Some 0.
Proof.
  intros Hv. unfold KEY_PRESSED, KEY_RELEASED. rewrite Hv. cbn. unfold lnot.
  destruct (decide (v = 0)) as [->|]; [split; reflexivity|].
  rewrite Z.land_0_r. split; reflexivity.
Qed.

(** X10. When [keys] and [keys_lf] both have [keys_size] entries, a call of
    [handle_ui_keys] that returns leaves [keys_lf] equal to [keys], which it
    has not changed: right after the call no key reads as pressed or
    released. *)
Theorem handle_ui_keys_commits (rp : bool) (s : state) :
  keys_ok s → result (handle_ui_keys rp s) = Ret tt →
  let s' := final (handle_ui_keys rp s) in
  keys s' = keys s ∧ keys_lf s' = keys s ∧ keys_ok s' ∧
  ∀ i v, keys s !! i = Some v →
    KEY_PRESSED (keys s') (keys_lf s') i = Some 0 ∧
    KEY_RELEASED (keys s') (keys_lf s') i = Some 0.
Proof.
  intros Hok Hret s'. subst s'. unfold handle_ui_keys in *.
  apply bind_returns in Hret as ([] & Hr1 & Hr2 & Hfin & _).
  rewrite Hfin.
  pose proof (handle_ui_keys_locked_keeps_keys rp s) as Hk1. cbn in Hk1.
  injection Hk1 as Hks Hkl Hkz.
  set (s1 := final (handle_ui_keys_locked rp s)) in *.
  assert (Hok1 : keys_ok s1) by (unfold keys_ok in *; rewrite Hks, Hkl, Hkz; exact Hok).
  destruct (handle_ui_keys_commit_copies s1 Hok1) as [_ Hcopy].
  pose proof (handle_ui_keys_commit_keeps_keys s1) as Hk2. cbn in Hk2.
  injection Hk2 as Hks2 Hkz2 _.
  assert (E1 : keys (final (handle_ui_keys_commit s1)) = keys s) by congruence.
  assert (E2 : keys_lf (final (handle_ui_keys_commit s1)) = keys s) by congruence.
  split; [exact E1|]. split; [exact E2|]. split.
  - unfold keys_ok in *. rewrite E1, E2, Hkz2, Hkz. destruct Hok. split; assumption.
  - intros i v Hv. rewrite E1, E2. exact (KEY_no_edge (keys s) i v Hv).
Qed.

Lemma handle_ui_keys_commits_witness :
  keys_lf (final (handle_ui_keys false quiet_keyboard)) = keys quiet_keyboard.
Proof.
  refine (proj1 (proj2 (handle_ui_keys_commits false quiet_keyboard _ _))).
  - split; vm_compute; reflexivity.
  - vm_compute. reflexivity.
Defined.

Lemma hoare_ret {A} (P : state → Prop) (Q : event → Prop) (a : A) (R : A → Prop) :
  R a → hoare P Q (mret a) R.
Proof.
  intros Ha s Hs. cbn. split; [exact Hs|]. split; [constructor|].
  intros a' [= <-]. exact Ha.
Qed.

Lemma hoare_bind {A B} (P : state → Prop) (Q : event → Prop)
    (m : M A) (k : A → M B) (R : A → Prop) (R' : B → Prop) :
  hoare P Q m R → (∀ a, R a → hoare P Q (k a) R') → hoare P Q (m ≫= k) R'.
Proof.
  intros Hm Hk s Hs. destruct (Hm s Hs) as (HP & HQ & HR).
  unfold mbind, M_bind, result, final, log in *.
  destruct (m s) as [[[a|r] s1] t1]; cbn in *.
  - destruct (Hk a (HR a eq_refl) s1 HP) as (HP' & HQ' & HR').
    destruct (k a s1) as [[r2 s2] t2]; cbn in *.
    split; [exact HP'|]. split; [apply Forall_app; split; assumption|exact HR'].
  - split; [exact HP|]. split; [exact HQ|]. discriminate.
Qed.

Lemma hoare_weaken {A} (P : state → Prop) (Q : event → Prop) (m : M A) (R R' : A → Prop) :
  hoare P Q m R → (∀ a, R a → R' a) → hoare P Q m R'.
Proof.
  intros Hm HR s Hs. destruct (Hm s Hs) as (HP & HQ & HR0).
  split; [exact HP|]. split; [exact HQ|]. intros a Ha. apply HR, HR0, Ha.
Qed.

Lemma hoare_emit (P : state → Prop) (Q : event → Prop) (e : event) :
  Q e → hoare P Q (emit e) (λ _, True).
Proof.
  intros He s Hs. cbn. split; [exact Hs|]. split; [repeat constructor; exact He|auto].
Qed.

Lemma hoare_halt {A} (P : state → Prop) (Q : event → Prop) (r : stop) (R : A → Prop) :
  hoare P Q (halt r) R.
Proof. intros s Hs. cbn. split; [exact Hs|]. split; [constructor|discriminate]. Qed.

Lemma hoare_load {A} (P : state → Prop) (Q : event → Prop) (v : var) (f : state → A) :
  Q (EvRead v) → hoare P Q (load v f) (λ _, True).
Proof.
  intros He s Hs. cbn. split; [exact Hs|]. split; [repeat constructor; exact He|auto].
Qed.

Lemma hoare_when_zero (P : state → Prop) (Q : event → Prop) (m : M unit) :
  hoare P Q (when_nonzero 0 m) (λ _, True).
Proof. unfold when_nonzero. cbn. apply hoare_ret. exact I. Qed.

Lemma no_edge_read (e : event) (v : var) : e = EvRead v → ¬ edge_action e.
Proof. intros -> [H | (d & [H | H])]; discriminate. Qed.

Lemma hoare_read_key (b : bool) (i : Z) :
  hoare (no_edge b) (λ e, ¬ edge_action e) (read_key i) (λ _, True).
Proof.
  intros s Hs. unfold read_key. destruct (keys s !! Z.to_nat i); cbn.
  - split; [exact Hs|]. split; [|auto].
    repeat constructor. exact (no_edge_read _ v_keys eq_refl).
  - split; [exact Hs|]. split; [constructor|discriminate].
Qed.

Lemma hoare_key_pressed (b : bool) (i : Z) :
  hoare (no_edge b) (λ e, ¬ edge_action e) (key_pressed i) (λ v, v = 0).
Proof.
  intros s Hs. unfold key_pressed. destruct Hs as [Hlf Hb]. rewrite Hlf.
  destruct (keys s !! Z.to_nat i) as [v|] eqn:E.
  - destruct (KEY_no_edge (keys s) (Z.to_nat i) v E) as [Hp _]. rewrite Hp. cbn.
    split; [split; assumption|]. split; [|intros a [= <-]; reflexivity].
    repeat constructor;
      [exact (no_edge_read _ v_keys eq_refl)|exact (no_edge_read _ v_keys_lf eq_refl)].
  - unfold KEY_PRESSED. rewrite E. cbn.
    split; [split; assumption|]. split; [constructor|discriminate].
Qed.

Lemma hoare_handle_ui_keys_locked (b rp : bool) :
  hoare (no_edge b) (λ e, ¬ edge_action e) (handle_ui_keys_locked rp) (λ _, True).
Proof.
  assert (Hcall : ∀ f, (∀ d, f ≠ corrupt_chance_add d) → (∀ d, f ≠ corrupt_chance_sub d) →
            hoare (no_edge b) (λ e, ¬ edge_action e) (call f) (λ _, True)).
  { intros f Ha Hs. apply hoare_emit. intros [H | (d & [H | H])];
      [discriminate|injection H; apply Ha|injection H; apply Hs]. }
  assert (Hlock : ∀ m, hoare (no_edge b) (λ e, ¬ edge_action e) (SDL_LockMutex m) (λ _, True)).
  { intros m. apply hoare_emit. intros [H | (d & [H | H])]; discriminate. }
  assert (Hunlock : ∀ m, hoare (no_edge b) (λ e, ¬ edge_action e) (SDL_UnlockMutex m) (λ _, True)).
  { intros m. apply hoare_emit. intros [H | (d & [H | H])]; discriminate. }
  unfold handle_ui_keys_locked.
  eapply (hoare_bind _ _ _ _ (λ _, True)); [apply Hlock|intros _ _].
  eapply (hoare_bind _ _ _ _ (λ _, True)); [apply hoare_read_key|intros esc _].
  eapply (hoare_bind _ _ _ _ (λ _, True)).
  { unfold when_nonzero. destruct (decide (esc = 0));
      [apply hoare_ret; exact I|apply hoare_halt]. }
  intros _ _.
  eapply (hoare_bind _ _ _ _ (λ v, v = 0)); [apply hoare_key_pressed|intros f3 ->].
  eapply (hoare_bind _ _ _ _ (λ _, True)); [apply hoare_when_zero|intros _ _].
  eapply (hoare_bind _ _ _ _ (λ v, v = 0)); [apply hoare_key_pressed|intros f4 ->].
  eapply (hoare_bind _ _ _ _ (λ _, True)); [apply hoare_when_zero|intros _ _].
  eapply (hoare_bind _ _ _ _ (λ _, True)); [apply hoare_read_key|intros alt _].
  eapply (hoare_bind _ _ _ _ (λ _, True)).
  { unfold when_nonzero at 1. destruct (decide (alt = 0)); [apply hoare_ret; exact I|].
    eapply (hoare_bind _ _ _ _ (λ v, v = 0)); [apply hoare_key_pressed|intros d ->]. apply hoare_when_zero. }
  intros _ _.
  eapply (hoare_bind _ _ _ _ (λ _, True)); [apply hoare_read_key|intros f5 _].
  eapply (hoare_bind _ _ _ _ (λ _, True)).
  { destruct (decide (f5 = 0)).
    - eapply (hoare_bind _ _ _ _ (λ _, True)); [apply hoare_read_key|intros f8 _].
      unfold when_nonzero. destruct (decide (f8 = 0));
        [apply hoare_ret; exact I|apply Hcall; discriminate].
    - apply Hcall; discriminate. }
  intros _ _.
  eapply (hoare_bind _ _ _ _ (λ _, True)); [apply hoare_read_key|intros bs _].
  eapply (hoare_bind _ _ _ _ (λ _, True)); [apply Hcall; discriminate|intros _ _].
  eapply (hoare_bind _ _ _ _ (λ _, True)).
  { destruct rp; [apply Hcall; discriminate|apply hoare_ret; exact I]. }
  intros _ _. apply Hunlock.
Qed.

Lemma hoare_handle_ui_keys_commit (b : bool) :
  hoare (no_edge b) (λ e, ¬ edge_action e) handle_ui_keys_commit (λ _, True).
Proof.
  unfold handle_ui_keys_commit.
  eapply (hoare_bind _ _ _ _ (λ _, True)).
  { apply hoare_load. exact (no_edge_read _ v_keys_size eq_refl). }
  intros n _. unfold when_nonzero. destruct (decide (n = 0)); [apply hoare_ret; exact I|].
  intros s [Hlf Hb]. unfold memcpy_keys_lf. destruct (decide _); cbn.
  - split; [split; [|exact Hb]|].
    + rewrite Hlf. apply take_drop.
    + split; [|auto]. repeat constructor.
      * exact (no_edge_read _ v_keys eq_refl).
      * intros [H | (d & [H | H])]; discriminate.
  - split; [split; assumption|]. split; [constructor|discriminate].
Qed.

(** X11. Key edges are acted on once.  If [keys_lf] equals [keys] (as a
    returning call of [handle_ui_keys] leaves them), then a call of
    [handle_ui_keys], whether it returns or stops, neither changes
    [corrupt_chance] nor writes [show_debugger], and leaves [keys_lf] equal
    to [keys]: holding F3, F4 or Alt+D over several calls, with no refresh of
    the keyboard in between, has no further effect. *)
Theorem handle_ui_keys_no_repeat (rp : bool) (s : state) :
  keys_lf s = keys s →
  let o := handle_ui_keys rp s in
  show_debugger (final o) = show_debugger s ∧
  keys_lf (final o) = keys (final o) ∧
  (EvWrite v_show_debugger ∉ log o) ∧
  (∀ d, (EvCall (corrupt_chance_add d) ∉ log o) ∧ (EvCall (corrupt_chance_sub d) ∉ log o)).
Proof.
  intros Hlf o.
  assert (H : hoare (no_edge (show_debugger s)) (λ e, ¬ edge_action e)
                (handle_ui_keys rp) (λ _, True)).
  { unfold handle_ui_keys. eapply (hoare_bind _ _ _ _ (λ _, True));
      [apply hoare_handle_ui_keys_locked|intros _ _; apply hoare_handle_ui_keys_commit]. }
  destruct (H s (conj Hlf eq_refl)) as ([Hlf' Hb'] & HQ & _). fold o in Hlf', Hb', HQ.
  rewrite Forall_forall in HQ.
  split; [exact Hb'|]. split; [exact Hlf'|]. split.
  - intros Hin. apply list_elem_of_In in Hin. apply (HQ _ Hin). left. reflexivity.
  - intros d. split; intros Hin; apply list_elem_of_In in Hin;
      apply (HQ _ Hin); right; exists d; auto.
Qed.

Lemma handle_ui_keys_no_repeat_witness :
  show_debugger (final (handle_ui_keys false quiet_keyboard)) = show_debugger quiet_keyboard.
Proof.
  exact (proj1 (handle_ui_keys_no_repeat false quiet_keyboard eq_refl)).
Defined.

Lemma bind_ret_eq {A B} (m : M A) (k : A → M B) (s s1 : state) (a : A) (t1 : list event) :
  m s = (Ret a, s1, t1) → (m ≫= k) s = after t1 (k a s1).
Proof.
  intros E. unfold mbind, M_bind, after, result, final, log. rewrite E.
  destruct (k a s1) as [[r2 s2] t2]. reflexivity.
Qed.

Lemma bind_stop_eq {A B} (m : M A) (k : A → M B) (s s1 : state) (r : stop)
    (t1 : list event) :
  m s = (Stop r, s1, t1) → (m ≫= k) s = (Stop r, s1, t1).
Proof. intros E. unfold mbind, M_bind. rewrite E. reflexivity. Qed.

Lemma handle_ui_keys_locked_escape (rp : bool) (s : state) (k : Z) :
  keys s !! Z.to_nat SDL_SCANCODE_ESCAPE = Some k → k ≠ 0 →
  handle_ui_keys_locked rp s =
    (Stop (ProcessExit 0), s, [EvLock event_lock; EvRead v_keys]).
Proof.
  intros Hk Hne. unfold handle_ui_keys_locked.
  erewrite bind_ret_eq by reflexivity.
  erewrite bind_ret_eq by (unfold read_key; rewrite Hk; reflexivity).
  erewrite bind_stop_eq; [reflexivity|].
  unfold when_nonzero. destruct (decide (k = 0)); [contradiction|reflexivity].
Qed.

Lemma handle_ui_keys_locked_no_escape_key (rp : bool) (s : state) :
  keys s !! Z.to_nat SDL_SCANCODE_ESCAPE = None →
  handle_ui_keys_locked rp s = (Stop OutOfBounds, s, [EvLock event_lock]).
Proof.
  intros Hk. unfold handle_ui_keys_locked.
  erewrite bind_ret_eq by reflexivity.
  erewrite bind_stop_eq; [reflexivity|].
  unfold read_key. rewrite Hk. reflexivity.
Qed.

(** X12. With Escape held, [handle_ui_keys] calls [exit(0)] right after its
    first read: the process stops with [event_lock] still held, nothing has
    been changed, and [keys_lf] has not been updated.  Conversely a call
    that returns has found [keys[SDL_SCANCODE_ESCAPE]] to be 0. *)
Theorem handle_ui_keys_escape (rp : bool) (s : state) :
  (∀ k, keys s !! Z.to_nat SDL_SCANCODE_ESCAPE = Some k → k ≠ 0 →
     handle_ui_keys rp s =
       (Stop (ProcessExit 0), s, [EvLock event_lock; EvRead v_keys]) ∧
     held_after event_lock false (log (handle_ui_keys rp s)) = true) ∧
  (result (handle_ui_keys rp s) = Ret tt →
     keys s !! Z.to_nat SDL_SCANCODE_ESCAPE = Some 0).
Proof.
  split.
  - intros k Hk Hne.
    assert (E : handle_ui_keys rp s =
                  (Stop (ProcessExit 0), s, [EvLock event_lock; EvRead v_keys])).
    { unfold handle_ui_keys.
      apply bind_stop_eq, (handle_ui_keys_locked_escape rp s k Hk Hne). }
    rewrite E. split; reflexivity.
  - intros Hret.
    destruct (keys s !! Z.to_nat SDL_SCANCODE_ESCAPE) as [k|] eqn:Hk.
    + destruct (decide (k = 0)) as [->|Hne]; [reflexivity|].
      unfold handle_ui_keys in Hret.
      rewrite (bind_stop_eq _ _ _ _ _ _ (handle_ui_keys_locked_escape rp s k Hk Hne))
        in Hret.
      discriminate Hret.
    + unfold handle_ui_keys in Hret.
      rewrite (bind_stop_eq _ _ _ _ _ _ (handle_ui_keys_locked_no_escape_key rp s Hk))
        in Hret.
      discriminate Hret.
Qed.

Lemma handle_ui_keys_escape_witness :
  handle_ui_keys false (set_keys (<[Z.to_nat SDL_SCANCODE_ESCAPE := 1]> no_keys) quiet_keyboard)
    = (Stop (ProcessExit 0),
       set_keys (<[Z.to_nat SDL_SCANCODE_ESCAPE := 1]> no_keys) quiet_keyboard,
       [EvLock event_lock; EvRead v_keys]).
Proof.
  refine (proj1 (proj1 (handle_ui_keys_escape false
            (set_keys (<[Z.to_nat SDL_SCANCODE_ESCAPE := 1]> no_keys) quiet_keyboard))
            1 _ _)).
  - vm_compute. reflexivity.
  - discriminate.
Defined.

(** X13. [handle_ui_keys], whether it returns or stops, never touches the
    frame handoff (pixels, pointers, flags, the SDL thread) nor [keys] or
    [keys_size]: all it can change is [show_debugger] and [keys_lf]. *)
Theorem handle_ui_keys_frame (rp : bool) (s : state) :
  handoff (final (handle_ui_keys rp s)) = handoff s ∧
  keys (final (handle_ui_keys rp s)) = keys s ∧
  keys_size (final (handle_ui_keys rp s)) = keys_size s.
Proof.
  assert (H : keeps (λ s, (keys s, keys_size s)) (handle_ui_keys rp)).
  { unfold handle_ui_keys, handle_ui_keys_locked, handle_ui_keys_commit.
    auto 40 with keeps. }
  specialize (H s). cbn in H. injection H as H2 H3.
  split; [apply handle_ui_keys_keeps_handoff|]. split; assumption.
Qed.

Lemma outside_app (m : mutex) (held : bool) (t1 t2 : list event) :
  outside m held (t1 ++ t2) = outside m held t1 ++ outside m (held_after m held t1) t2 ∧
  held_after m held (t1 ++ t2) = held_after m (held_after m held t1) t2.
Proof.
  revert held. induction t1 as [|e t1 IH]; intros held; cbn; [auto|].
  destruct (acquires m e); [apply IH|].
  destruct (releases m e); [apply IH|].
  destruct held; cbn; destruct (IH true), (IH false); split; congruence.
Qed.

Lemma poll_events_log (queue : list SDL_Event) (s : state) :
  log (poll_events queue s) =
    queue ≫= λ e, match e with
                  | SDL_QUIT => [EvCall end_emulation; EvWrite v_pending_sdl_thread_exit]
                  | _ => []
                  end.
Proof.
  revert s. induction queue as [|e queue IH]; intros s; [reflexivity|].
  cbn [poll_events]. destruct e; run_m.
  - specialize (IH s). destruct (poll_events queue s) as [[r s'] t]. exact IH.
  - specialize (IH (set_pending_sdl_thread_exit true s)).
    destruct (poll_events queue _) as [[r s'] t]. cbn in *. rewrite IH. reflexivity.
  - specialize (IH s). destruct (poll_events queue s) as [[r s'] t]. exact IH.
Qed.

Lemma calls_app (f : extern) (t1 t2 : list event) :
  calls f (t1 ++ t2) = (calls f t1 + calls f t2)%nat.
Proof. unfold calls. rewrite list.filter_app, length_app. reflexivity. Qed.

Lemma quits_cons (e : SDL_Event) (queue : list SDL_Event) :
  quits (e :: queue) = ((if decide (e = SDL_QUIT) then 1 else 0) + quits queue)%nat.
Proof. unfold quits. rewrite list.filter_cons. destruct (decide _); reflexivity. Qed.

Lemma poll_events_log_locked (queue : list SDL_Event) (s : state) :
  outside event_lock true (log (poll_events queue s)) = [] ∧
  held_after event_lock true (log (poll_events queue s)) = true ∧
  calls end_emulation (log (poll_events queue s)) = quits queue ∧
  (∀ m, EvLock m ∉ log (poll_events queue s)).
Proof.
  rewrite poll_events_log. induction queue as [|e queue IH].
  - repeat split. intros m. apply not_elem_of_nil.
  - destruct IH as (Ho & Hh & Hc & Hl). rewrite bind_cons.
    match goal with |- context [?l ++ _] => set (t := l) end.
    destruct (outside_app event_lock true t
                (queue ≫= λ e, match e with
                               | SDL_QUIT => [EvCall end_emulation;
                                              EvWrite v_pending_sdl_thread_exit]
                               | _ => []
                               end)) as [E1 E2].
    rewrite E1, E2, calls_app, quits_cons, Hc.
    assert (Ht : outside event_lock true t = [] ∧ held_after event_lock true t = true ∧
                 calls end_emulation t = (if decide (e = SDL_QUIT) then 1 else 0)%nat ∧
                 ∀ m, EvLock m ∉ t).
    { subst t. destruct e; repeat split; try reflexivity; intros m;
        rewrite ?not_elem_of_cons; repeat split; try discriminate; apply not_elem_of_nil. }
    destruct Ht as (Ht1 & Ht2 & Ht3 & Ht4). rewrite Ht1, Ht2, Ht3, Ho, Hh.
    repeat split. intros m. rewrite not_elem_of_app. split; [apply Ht4|apply Hl].
Qed.

Lemma poll_events_keeps_keys_lf (queue : list SDL_Event) :
  keeps (λ s, (keys_lf s, show_debugger s)) (poll_events queue).
Proof.
  induction queue as [|e q IH]; cbn; [apply keeps_ret|].
  apply keeps_bind; [|intros _; exact IH]. destruct e; cbn; auto 10 with keeps.
Qed.

(** X14. [process_events] always returns.  It replaces [keys] by the
    refreshed keyboard and leaves [keys_lf], [show_debugger] and the frames,
    pointers and handoff flags alone.  It sets [pending_sdl_thread_exit] when
    the queue holds an [SDL_QUIT] and never clears it, and it calls
    [end_emulation] once for each [SDL_QUIT].  All of this happens between
    taking and releasing [event_lock]; [frame_lock] is not taken, also not
    for the write of [pending_sdl_thread_exit]. *)
Theorem process_events_effect (kbd : list Z) (queue : list SDL_Event) (s : state) :
  let o := process_events kbd queue s in
  result o = Ret tt ∧
  keys (final o) = kbd ∧
  keys_lf (final o) = keys_lf s ∧
  show_debugger (final o) = show_debugger s ∧
  frame_part (final o) = frame_part s ∧
  pending_sdl_thread_exit (final o) = pending_sdl_thread_exit s || has_quit queue ∧
  calls end_emulation (log o) = quits queue ∧
  under_lock event_lock (log o) ∧
  (EvLock frame_lock ∉ log o).
Proof.
  intros o. subst o.
  pose proof (poll_events_returns queue (set_keys kbd s)) as (Hr & Hp & _ & Hk).
  pose proof (poll_events_keeps_frame_part queue (set_keys kbd s)) as Hf.
  pose proof (poll_events_log_locked queue (set_keys kbd s)) as (Ho & Hh & Hc & Hl).
  pose proof (poll_events_keeps_keys_lf queue (set_keys kbd s)) as Hkl.
  cbn in Hkl. injection Hkl as Hkl Hsd.
  unfold process_events. run_m.
  destruct (poll_events queue (set_keys kbd s)) as [[r s1] t]; cbn in *. subst r. cbn.
  split; [reflexivity|]. split; [exact Hk|]. split; [exact Hkl|]. split; [exact Hsd|].
  split; [exact Hf|]. split; [exact Hp|]. split.
  - change (EvLock event_lock :: EvWrite v_keys :: t ++ [EvUnlock event_lock])
      with ([EvLock event_lock; EvWrite v_keys] ++ t ++ [EvUnlock event_lock]).
    rewrite !calls_app, Hc.
    change (calls end_emulation [EvLock event_lock; EvWrite v_keys]) with 0%nat.
    change (calls end_emulation [EvUnlock event_lock]) with 0%nat. lia.
  - split.
    + unfold under_lock. cbn.
      destruct (outside_app event_lock true t [EvUnlock event_lock]) as [E1 E2].
      rewrite E1, E2, Ho, Hh. split; reflexivity.
    + rewrite !not_elem_of_cons, not_elem_of_app, not_elem_of_cons.
      split; [discriminate|]. split; [discriminate|].
      split; [apply Hl|]. split; [discriminate|apply not_elem_of_nil].
Qed.

Lemma handle_ui_keys_commit_no_calls (f : extern) (s : state) :
  calls f (log (handle_ui_keys_commit s)) = 0%nat.
Proof.
  unfold handle_ui_keys_commit, memcpy_keys_lf. run_m.
  destruct (decide (keys_size s = 0)); cbn; [reflexivity|].
  destruct (decide _); reflexivity.
Qed.

Lemma handle_ui_keys_locked_calls (rp : bool) (s : state) :
  scancodes_ok s →
  keys s !! Z.to_nat SDL_SCANCODE_ESCAPE = Some 0 →
  ∃ f5 f8 bs : Z,
    keys s !! Z.to_nat SDL_SCANCODE_F5 = Some f5 ∧
    keys s !! Z.to_nat SDL_SCANCODE_F8 = Some f8 ∧
    keys s !! Z.to_nat SDL_SCANCODE_BACKSPACE = Some bs ∧
    let tr := log (handle_ui_keys_locked rp s) in
    result (handle_ui_keys_locked rp s) = Ret tt ∧
    calls save_state tr = (if decide (f5 = 0) then 0%nat else 1%nat) ∧
    calls load_state tr =
      (if decide (f5 = 0) then if decide (f8 = 0) then 0%nat else 1%nat else 0%nat) ∧
    (EvCall (handle_rewind bs) ∈ tr) ∧
    calls soft_reset tr = (if rp then 1%nat else 0%nat) ∧
    under_lock event_lock tr.
Proof.
  intros [[Hk Hl] Halt] Hesc.
  destruct s as [b0 b1 fb bb r a d k kl ks p c]; cbn in *.
  unfold SDL_SCANCODE_LALT in Halt.
  assert (Hin : ∀ (l : list Z) (i : Z),
            Z.of_nat (length l) = ks → 0 ≤ i ≤ 226 → ∃ v, l !! Z.to_nat i = Some v).
  { intros l i Hlen Hi. apply lookup_lt_is_Some_2. lia. }
  destruct (Hin k SDL_SCANCODE_F3 Hk ltac:(unfold SDL_SCANCODE_F3; lia)) as [k60 H60].
  destruct (Hin k SDL_SCANCODE_F4 Hk ltac:(unfold SDL_SCANCODE_F4; lia)) as [k61 H61].
  destruct (Hin k SDL_SCANCODE_LALT Hk ltac:(unfold SDL_SCANCODE_LALT; lia)) as [k226 H226].
  destruct (Hin k SDL_SCANCODE_D Hk ltac:(unfold SDL_SCANCODE_D; lia)) as [k7 H7].
  destruct (Hin k SDL_SCANCODE_F5 Hk ltac:(unfold SDL_SCANCODE_F5; lia)) as [k62 H62].
  destruct (Hin k SDL_SCANCODE_F8 Hk ltac:(unfold SDL_SCANCODE_F8; lia)) as [k65 H65].
  destruct (Hin k SDL_SCANCODE_BACKSPACE Hk ltac:(unfold SDL_SCANCODE_BACKSPACE; lia))
    as [k42 H42].
  destruct (Hin kl SDL_SCANCODE_F3 Hl ltac:(unfold SDL_SCANCODE_F3; lia)) as [l60 L60].
  destruct (Hin kl SDL_SCANCODE_F4 Hl ltac:(unfold SDL_SCANCODE_F4; lia)) as [l61 L61].
  destruct (Hin kl SDL_SCANCODE_D Hl ltac:(unfold SDL_SCANCODE_D; lia)) as [l7 L7].
  clear Hin.
  exists k62, k65, k42. do 3 (split; [assumption|]).
  unfold handle_ui_keys_locked, read_key, key_pressed, KEY_PRESSED, under_lock.
  destruct rp; run_m.
  all: repeat first
    [ rewrite Hesc | rewrite H60 | rewrite H61 | rewrite H226 | rewrite H7
    | rewrite H62 | rewrite H65 | rewrite H42 | rewrite L60 | rewrite L61 | rewrite L7
    | match goal with
      | |- context [decide ?P] => destruct (decide P); try congruence
      end
    | progress cbn ].
  all: repeat split; try (vm_compute; reflexivity).
  all: repeat constructor.
Qed.

(** X15. With all scancodes inside [keys] and Escape not held,
    [handle_ui_keys] returns, and in that call: [save_state] is called
    exactly when F5 is held; [load_state] exactly when F8 is held and F5 is
    not, so never both; [handle_rewind] is called with
    [keys[SDL_SCANCODE_BACKSPACE]]; and [soft_reset] exactly when
    [reset_pushed] is set. *)
Theorem handle_ui_keys_calls (rp : bool) (s : state) :
  scancodes_ok s →
  keys s !! Z.to_nat SDL_SCANCODE_ESCAPE = Some 0 →
  ∃ f5 f8 bs : Z,
    keys s !! Z.to_nat SDL_SCANCODE_F5 = Some f5 ∧
    keys s !! Z.to_nat SDL_SCANCODE_F8 = Some f8 ∧
    keys s !! Z.to_nat SDL_SCANCODE_BACKSPACE = Some bs ∧
    let tr := log (handle_ui_keys rp s) in
    result (handle_ui_keys rp s) = Ret tt ∧
    calls save_state tr = (if decide (f5 = 0) then 0%nat else 1%nat) ∧
    calls load_state tr =
      (if decide (f5 = 0) then if decide (f8 = 0) then 0%nat else 1%nat else 0%nat) ∧
    (calls save_state tr + calls load_state tr ≤ 1)%nat ∧
    (EvCall (handle_rewind bs) ∈ tr) ∧
    calls soft_reset tr = (if rp then 1%nat else 0%nat).
Proof.
  intros Hok Hesc.
  destruct (handle_ui_keys_locked_calls rp s Hok Hesc)
    as (f5 & f8 & bs & H5 & H8 & Hbs & Hr & Hsave & Hload & Hrew & Hreset & _).
  exists f5, f8, bs. do 3 (split; [assumption|]). cbv zeta.
  pose proof (handle_ui_keys_locked_keeps_keys rp s) as Hkeep. cbn in Hkeep.
  injection Hkeep as Hks Hkl Hkz.
  destruct (handle_ui_keys_locked rp s) as [[r1 s1] t1] eqn:E1.
  unfold result, final, log in *; cbn in *. subst r1.
  assert (Hok1 : keys_ok s1).
  { destruct Hok as [Hok _]. unfold keys_ok in *. rewrite Hks, Hkl, Hkz. exact Hok. }
  destruct (handle_ui_keys_commit_copies s1 Hok1) as [Hr2 _].
  unfold handle_ui_keys. rewrite (bind_ret_eq _ _ _ _ _ _ E1).
  unfold after, result, final, log in *; cbn.
  split; [exact Hr2|].
  rewrite !calls_app, !(handle_ui_keys_commit_no_calls _ s1), !Nat.add_0_r.
  split; [exact Hsave|]. split; [exact Hload|]. split.
  - rewrite Hsave, Hload. destruct (decide (f5 = 0)), (decide (f8 = 0)); cbn; lia.
  - split; [apply elem_of_app; left; exact Hrew|exact Hreset].
Qed.

Lemma handle_ui_keys_calls_witness :
  ∃ f5 f8 bs : Z,
    keys quiet_keyboard !! Z.to_nat SDL_SCANCODE_F5 = Some f5 ∧
    keys quiet_keyboard !! Z.to_nat SDL_SCANCODE_F8 = Some f8 ∧
    keys quiet_keyboard !! Z.to_nat SDL_SCANCODE_BACKSPACE = Some bs ∧
    let tr := log (handle_ui_keys false quiet_keyboard) in
    result (handle_ui_keys false quiet_keyboard) = Ret tt ∧
    calls save_state tr = (if decide (f5 = 0) then 0%nat else 1%nat) ∧
    calls load_state tr =
      (if decide (f5 = 0) then if decide (f8 = 0) then 0%nat else 1%nat else 0%nat) ∧
    (calls save_state tr + calls load_state tr ≤ 1)%nat ∧
    (EvCall (handle_rewind bs) ∈ tr) ∧
    calls soft_reset tr = 0%nat.
Proof.
  apply (handle_ui_keys_calls false quiet_keyboard).
  - repeat split; vm_compute; reflexivity.
  - vm_compute. reflexivity.
Defined.

(** ** More on the frame handoff *)

Lemma pending_step (l : label) (s s' : state) :
  pending_sdl_thread_exit s = true → step l s = Some s' →
  pending_sdl_thread_exit s' = true.
Proof.
  intros Hp Hstep. destruct l.
  - apply step_put_pixel in Hstep. subst s'. destruct (back_buffer s); exact Hp.
  - rewrite step_draw_frame in Hstep. injection Hstep as <-.
    destruct (ready_to_draw_new_frame s); exact Hp.
  - rewrite step_exit_sdl_thread in Hstep. injection Hstep as <-. reflexivity.
  - apply step_handle_ui_keys_locked in Hstep. unfold handoff in Hstep. congruence.
  - apply step_handle_ui_keys_commit in Hstep. unfold handoff in Hstep. congruence.
  - apply step_sdl_wait in Hstep as [_ ->].
    revert Hp. cases_on_state s; vm_compute; congruence.
  - apply step_sdl_wake in Hstep as [_ ->].
    revert Hp. cases_on_state s; vm_compute; congruence.
  - apply step_sdl_present in Hstep as (_ & _ & Hp' & _). rewrite Hp', Hp. reflexivity.
  - apply step_spurious_wake in Hstep as [_ ->]. exact Hp.
Qed.

Lemma pending_run (ls : list label) (s s' : state) :
  pending_sdl_thread_exit s = true → run ls s = Some s' →
  pending_sdl_thread_exit s' = true.
Proof.
  revert s. induction ls as [|l ls IH]; cbn; intros s Hp Hrun.
  - injection Hrun as <-. exact Hp.
  - destruct (step l s) as [s1|] eqn:Hstep; cbn in Hrun; [|discriminate].
    apply (IH s1); [|exact Hrun]. exact (pending_step l s s1 Hp Hstep).
Qed.

Lemma returned_on_request_handoff (s s' : state) :
  handoff s' = handoff s → returned_on_request s' = returned_on_request s.
Proof.
  unfold handoff, returned_on_request. intros [= _ _ _ _ _ _ -> ->]. reflexivity.
Qed.

Lemma returned_on_request_step (l : label) (s s' : state) :
  returned_on_request s = true → step l s = Some s' → returned_on_request s' = true.
Proof.
  intros Hr Hstep. destruct l.
  - apply step_put_pixel in Hstep. subst s'. destruct (back_buffer s); exact Hr.
  - rewrite step_draw_frame in Hstep. injection Hstep as <-.
    revert Hr. cases_on_state s; vm_compute; congruence.
  - rewrite step_exit_sdl_thread in Hstep. injection Hstep as <-.
    revert Hr. cases_on_state s; vm_compute; congruence.
  - apply step_handle_ui_keys_locked in Hstep.
    rewrite (returned_on_request_handoff _ _ Hstep). exact Hr.
  - apply step_handle_ui_keys_commit in Hstep.
    rewrite (returned_on_request_handoff _ _ Hstep). exact Hr.
  - apply step_sdl_wait in Hstep as [Hpc ->].
    revert Hr Hpc. cases_on_state s; vm_compute; congruence.
  - apply step_sdl_wake in Hstep as [Hpc ->].
    revert Hr Hpc. cases_on_state s; vm_compute; congruence.
  - apply step_sdl_present in Hstep as (_ & _ & _ & Hc).
    unfold returned_on_request. rewrite Hc. reflexivity.
  - apply step_spurious_wake in Hstep as [Hpc ->].
    revert Hr Hpc. cases_on_state s; vm_compute; congruence.
Qed.

Lemma reachable_returned_on_request (s : state) :
  reachable s → returned_on_request s = true.
Proof.
  induction 1 as [kbd lf Hlen | s l s' _ IH Hstep]; [reflexivity|].
  exact (returned_on_request_step l s s' IH Hstep).
Qed.

(** What the handoff invariant says of a blocked SDL thread, and of one
    that has returned. *)
Lemma reachable_waiting (s : state) :
  reachable s → sdl_pc s = WaitingForFrame →
  ready_to_draw_new_frame s = true ∧ frame_available s = false ∧
  pending_sdl_thread_exit s = false.
Proof.
  intros Hr. pose proof (reachable_handoff_ok s Hr) as Hok. clear Hr. revert Hok.
  cases_on_state s; vm_compute; intros Hok Hpc;
    try discriminate Hok; try discriminate Hpc; repeat split; congruence.
Qed.

Lemma reachable_shut_down (s : state) :
  reachable s → sdl_pc s = ShuttingDown →
  ready_to_draw_new_frame s = true ∧ pending_sdl_thread_exit s = true.
Proof.
  intros Hr. pose proof (reachable_handoff_ok s Hr) as Hok.
  pose proof (reachable_returned_on_request s Hr) as Hret. clear Hr. revert Hok Hret.
  cases_on_state s; vm_compute; intros Hok Hret Hpc;
    try discriminate Hok; try discriminate Hret; try discriminate Hpc;
    repeat split; congruence.
Qed.

(** X16. In every reachable state: the two pointers name different
    buffers, both of full size; a frame is available only while
    [ready_to_draw_new_frame] is set; at the loop head and while rendering,
    the flag is clear and no frame is available; the SDL thread is blocked
    in [SDL_CondWait] only while the flag is set, no frame is available and
    no exit is requested (no wake-up is ever lost); and it has returned only
    after an exit request, leaving the flag set. *)
Theorem reachable_invariant (s : state) :
  reachable s →
  back_buffer s ≠ front_buffer s ∧ buffers_ok s ∧
  (frame_available s = true → ready_to_draw_new_frame s = true) ∧
  (sdl_pc s = Idle ∨ sdl_pc s = Presenting →
     ready_to_draw_new_frame s = false ∧ frame_available s = false) ∧
  (sdl_pc s = WaitingForFrame →
     ready_to_draw_new_frame s = true ∧ frame_available s = false ∧
     pending_sdl_thread_exit s = false) ∧
  (sdl_pc s = Woken → ready_to_draw_new_frame s = true) ∧
  (sdl_pc s = ShuttingDown →
     ready_to_draw_new_frame s = true ∧ pending_sdl_thread_exit s = true).
Proof.
  intros Hr.
  destruct (reachable_well_formed s Hr) as [Hb Hd].
  pose proof (reachable_handoff_ok s Hr) as Hok.
  pose proof (reachable_returned_on_request s Hr) as Hret.
  split; [exact Hd|]. split; [exact Hb|].
  clear Hr Hb Hd. revert Hok Hret.
  cases_on_state s; vm_compute; intros Hok Hret;
    try discriminate Hok; try discriminate Hret;
    repeat split; try congruence; try (intros [H|H]; congruence);
    match goal with H : _ ∨ _ |- _ => destruct H; congruence end.
Qed.

Lemma reachable_invariant_witness :
  ready_to_draw_new_frame waiting0 = true ∧ frame_available waiting0 = false ∧
  pending_sdl_thread_exit waiting0 = false.
Proof.
  refine (proj1 (proj2 (proj2 (proj2 (proj2 (reachable_invariant waiting0 _))))) _).
  - apply (reachable_step (init_sdl [] []) LSdlWait).
    + apply reachable_init. reflexivity.
    + reflexivity.
  - reflexivity.
Defined.



(** X18. An [SDL_QUIT] in the queue ends the SDL thread at its next pass
    through the loop head: the rendering step that polled it finishes the
    frame and leaves [pending_sdl_thread_exit] set, nothing that happens
    afterwards clears it, and the loop head then returns from [sdl_thread]
    without entering [SDL_CondWait], frame or no frame. *)
Theorem quit_event_ends_thread (kbd : list Z) (queue : list SDL_Event) (s s1 : state) :
  step (LSdlPresent kbd queue) s = Some s1 → has_quit queue = true →
  sdl_pc s1 = Idle ∧ pending_sdl_thread_exit s1 = true ∧
  (∀ ls s2, run ls s1 = Some s2 → pending_sdl_thread_exit s2 = true) ∧
  (∀ s2, pending_sdl_thread_exit s2 = true → sdl_pc s2 = Idle →
     result (sdl_thread_wait s2) = Ret Shutdown ∧
     (EvCondWait ∉ log (sdl_thread_wait s2)) ∧
     ∃ s3, step LSdlWait s2 = Some s3 ∧ sdl_pc s3 = ShuttingDown).
Proof.
  intros Hstep Hq. apply step_sdl_present in Hstep as (_ & _ & Hp & Hc).
  rewrite Hq, orb_true_r in Hp.
  split; [exact Hc|]. split; [exact Hp|]. split.
  - intros ls s2. apply pending_run, Hp.
  - intros s2 Hp2 Hc2.
    assert (Hp2' : pending_sdl_thread_exit (set_ready_to_draw_new_frame true s2) = true)
      by exact Hp2.
    destruct (wait_check_shutdown _ Hp2') as (tr & E & Hreads).
    rewrite sdl_thread_wait_unfold, E. unfold after; cbn.
    split; [reflexivity|]. split.
    + rewrite !not_elem_of_cons, not_elem_of_app, not_elem_of_cons.
      split; [discriminate|]. split; [discriminate|]. split.
      * intros Hin. destruct (Hreads _ Hin) as [v Hv]. discriminate Hv.
      * split; [discriminate|apply not_elem_of_nil].
    + eexists. split; [apply step_sdl_wait; split; [exact Hc2|reflexivity]|].
      unfold tested. rewrite Hp2'. destruct (frame_available _); reflexivity.
Qed.

Lemma quit_event_ends_thread_witness :
  ∃ s3, step LSdlWait
          (final (sdl_thread_present [1; 1; 0] [SDL_QUIT] (set_sdl_pc Presenting tiny)))
        = Some s3 ∧ sdl_pc s3 = ShuttingDown.
Proof.
  destruct (quit_event_ends_thread [1; 1; 0] [SDL_QUIT] (set_sdl_pc Presenting tiny)
              (final (sdl_thread_present [1; 1; 0] [SDL_QUIT] (set_sdl_pc Presenting tiny)))
              eq_refl eq_refl) as (Hc & Hp & _ & Hnext).
  exact (proj2 (proj2 (Hnext _ Hp Hc))).
Defined.

(** X19. [sdl_thread] returns without clearing [ready_to_draw_new_frame].
    So once the SDL thread has returned, frames are no longer dropped but
    handed to nobody: in every reachable state with the thread gone, each
    [draw_frame] finds the flag set, swaps the two buffers and sets
    [frame_available], and the thread stays gone. *)
Theorem draw_frame_after_return (s : state) :
  reachable s → sdl_pc s = ShuttingDown →
  ready_to_draw_new_frame s = true ∧
  step LDrawFrame s = Some (published s) ∧
  front_buffer (published s) = back_buffer s ∧
  back_buffer (published s) = front_buffer s ∧
  frame_available (published s) = true ∧
  sdl_pc (published s) = ShuttingDown ∧
  (∀ ls s', run ls s = Some s' → sdl_pc s' = ShuttingDown).
Proof.
  intros Hr Hpc.
  destruct (reachable_shut_down s Hr Hpc) as [Hrdy _].
  split; [exact Hrdy|]. split; [rewrite step_draw_frame, Hrdy; reflexivity|].
  do 3 (split; [reflexivity|]). split; [cbn; rewrite Hpc; reflexivity|].
  intros ls. clear Hr Hrdy. revert s Hpc.
  induction ls as [|l ls IH]; cbn; intros s Hpc s' Hrun.
  - injection Hrun as <-. exact Hpc.
  - destruct (step l s) as [s1|] eqn:Hstep; cbn in Hrun; [|discriminate].
    exact (IH s1 (shut_down_step l s s1 Hpc Hstep) s' Hrun).
Qed.

Lemma draw_frame_after_return_witness :
  ready_to_draw_new_frame gone0 = true ∧
  step LDrawFrame gone0 = Some (published gone0).
Proof.
  destruct (draw_frame_after_return gone0) as (Hr & Hs & _).
  - apply (reachable_step (set_sdl_pc Woken (set_pending_sdl_thread_exit true waiting0))
             LSdlWake); [|reflexivity].
    apply (reachable_step waiting0 LExitSdlThread); [|reflexivity].
    apply (reachable_step (init_sdl [] []) LSdlWait); [|reflexivity].
    apply reachable_init. reflexivity.
  - reflexivity.
  - split; assumption.
Defined.

Lemma set_pixels_back (v : list Z) (s : state) :
  back_pixels (set_pixels (back_buffer s) v s) = v ∧
  back_buffer (set_pixels (back_buffer s) v s) = back_buffer s.
Proof. destruct s as [b0 b1 f b r a d k kl ks p c]. destruct b; split; reflexivity. Qed.

Lemma set_pixels_twice (h : handle) (v1 v2 : list Z) (s : state) :
  set_pixels h v2 (set_pixels h v1 s) = set_pixels h v2 s.
Proof. destruct h; reflexivity. Qed.

Lemma put_pixel_final (x y : N) (color : Z) (s : state) :
  (x < 256)%N → (y < 240)%N → buffers_ok s →
  final (put_pixel x y color s) =
    set_pixels (back_buffer s)
      (<[Z.to_nat (256 * Z.of_N y + Z.of_N x) := color]> (back_pixels s)) s ∧
  buffers_ok (final (put_pixel x y color s)).
Proof.
  intros Hx Hy Hb. rewrite (put_pixel_in_bounds x y color s Hx Hy Hb). cbn.
  split; [reflexivity|]. destruct Hb as [H0 H1]. unfold buffers_ok, back_pixels.
  destruct s as [b0 b1 f b r a d k kl ks p c]; cbn in *.
  destruct b; cbn; rewrite length_insert; auto.
Qed.

(** X20. Pixels are stored row by row, 256 to a row: in-bounds coordinates
    that differ land in different cells.  Hence two in-bounds [put_pixel]
    calls at different coordinates can be made in either order with the
    same result, and of two calls at the same coordinates the later one
    alone determines the state. *)
Theorem put_pixel_order (x y x' y' : N) (c c' : Z) (s : state) :
  buffers_ok s → (x < 256)%N → (y < 240)%N → (x' < 256)%N → (y' < 240)%N →
  (256 * Z.of_N y + Z.of_N x = 256 * Z.of_N y' + Z.of_N x' ↔ x = x' ∧ y = y') ∧
  (¬ (x = x' ∧ y = y') →
     final (put_pixel x' y' c' (final (put_pixel x y c s)))
       = final (put_pixel x y c (final (put_pixel x' y' c' s)))) ∧
  final (put_pixel x y c' (final (put_pixel x y c s))) = final (put_pixel x y c' s).
Proof.
  intros Hb Hx Hy Hx' Hy'.
  assert (Hinj : 256 * Z.of_N y + Z.of_N x = 256 * Z.of_N y' + Z.of_N x' ↔ x = x' ∧ y = y')
    by lia.
  split; [exact Hinj|].
  destruct (put_pixel_final x y c s Hx Hy Hb) as [E1 Hb1].
  destruct (put_pixel_final x' y' c' s Hx' Hy' Hb) as [E2 Hb2].
  destruct (put_pixel_final x y c' s Hx Hy Hb) as [E3 _].
  split.
  - intros Hne.
    destruct (put_pixel_final x' y' c' _ Hx' Hy' Hb1) as [E12 _].
    destruct (put_pixel_final x y c _ Hx Hy Hb2) as [E21 _].
    rewrite E12, E21, E1, E2.
    destruct (set_pixels_back
                (<[Z.to_nat (256 * Z.of_N y + Z.of_N x) := c]> (back_pixels s)) s) as [-> ->].
    destruct (set_pixels_back
                (<[Z.to_nat (256 * Z.of_N y' + Z.of_N x') := c']> (back_pixels s)) s)
      as [-> ->].
    rewrite !set_pixels_twice. f_equal.
    apply list_insert_insert_ne. lia.
  - destruct (put_pixel_final x y c' _ Hx Hy Hb1) as [E11 _].
    rewrite E11, E1, E3.
    destruct (set_pixels_back
                (<[Z.to_nat (256 * Z.of_N y + Z.of_N x) := c]> (back_pixels s)) s) as [-> ->].
    rewrite set_pixels_twice. f_equal. apply list_insert_insert_eq.
Qed.

Lemma put_pixel_order_witness :
  final (put_pixel 1 0 8 (final (put_pixel 0 0 7 (init_sdl [] []))))
    = final (put_pixel 0 0 7 (final (put_pixel 1 0 8 (init_sdl [] [])))).
Proof.
  refine (proj1 (proj2 (put_pixel_order 0 0 1 0 7 8 (init_sdl [] []) _ eq_refl eq_refl
                          eq_refl eq_refl)) _).
  - split; vm_compute; reflexivity.
  - intros [H _]. discriminate H.
Defined.

Lemma not_ready_step (l : label) (s s' : state) :
  handoff_ok s = true → ready_to_draw_new_frame s = false → is_sdl_step l = false →
  step l s = Some s' →
  ready_to_draw_new_frame s' = false ∧ frame_available s' = false ∧
  front_buffer s' = front_buffer s ∧ back_buffer s' = back_buffer s ∧
  front_pixels s' = front_pixels s ∧ sdl_pc s' = sdl_pc s.
Proof.
  intros Hok Hrdy Hl Hstep.
  assert (Hfa : frame_available s = false).
  { revert Hok Hrdy. cases_on_state s; vm_compute; congruence. }
  destruct l; try discriminate Hl.
  - apply step_put_pixel in Hstep. subst s'.
    destruct (put_pixel_front (Z.to_nat (256 * Z.of_N y + Z.of_N x)) color s Hok)
      as (Hf & Ha & _ & Hbb & Hfb & Hr & _ & Hc).
    repeat split; congruence.
  - rewrite step_draw_frame, Hrdy in Hstep. injection Hstep as <-.
    repeat split; assumption || reflexivity.
  - rewrite step_exit_sdl_thread in Hstep. injection Hstep as <-.
    revert Hok Hrdy. cases_on_state s; vm_compute; intros; repeat split; congruence.
  - apply step_handle_ui_keys_locked in Hstep.
    pose proof (pixels_frame_part _ _ (handoff_frame_part _ _ Hstep))
      as (Hf & _ & Hfb & Hbb & Hr & Ha).
    unfold handoff in Hstep. repeat split; congruence.
  - apply step_handle_ui_keys_commit in Hstep.
    pose proof (pixels_frame_part _ _ (handoff_frame_part _ _ Hstep))
      as (Hf & _ & Hfb & Hbb & Hr & Ha).
    unfold handoff in Hstep. repeat split; congruence.
Qed.

(** X21. While [ready_to_draw_new_frame] is clear (the SDL thread has not
    reached its wait yet, or is rendering), the other threads cannot hand a
    frame off: after any run of steps other than the SDL thread's own, from a
    reachable state with the flag clear, the flag is still clear, no frame
    is available, the pointers are as before and the front buffer holds the
    same pixels.  So every frame drawn before the SDL thread first waits, and
    every frame drawn while it renders, is dropped. *)
Theorem no_hand_off_while_busy (ls : list label) (s s' : state) :
  reachable s → ready_to_draw_new_frame s = false →
  forallb (λ l, negb (is_sdl_step l)) ls = true →
  run ls s = Some s' →
  ready_to_draw_new_frame s' = false ∧ frame_available s' = false ∧
  front_buffer s' = front_buffer s ∧ back_buffer s' = back_buffer s ∧
  front_pixels s' = front_pixels s ∧ sdl_pc s' = sdl_pc s.
Proof.
  intros Hr. apply reachable_handoff_ok in Hr as Hok. clear Hr.
  revert s Hok. induction ls as [|l ls IH]; cbn; intros s Hok Hrdy Hls Hrun.
  - injection Hrun as <-. repeat split; try assumption.
    revert Hok Hrdy. cases_on_state s; vm_compute; congruence.
  - apply andb_prop in Hls as [Hl Hls]. apply negb_true_iff in Hl.
    destruct (step l s) as [s1|] eqn:Hstep; cbn in Hrun; [|discriminate].
    destruct (not_ready_step l s s1 Hok Hrdy Hl Hstep) as (Hr1 & Ha1 & Hf1 & Hb1 & Hp1 & Hc1).
    destruct (IH s1 (handoff_ok_step l s s1 Hok Hstep) Hr1 Hls Hrun)
      as (Hr2 & Ha2 & Hf2 & Hb2 & Hp2 & Hc2).
    repeat split; congruence.
Qed.

Lemma no_hand_off_while_busy_witness :
  ready_to_draw_new_frame (init_sdl [] []) = false ∧
  run [LDrawFrame; LExitSdlThread; LDrawFrame] (init_sdl [] [])
    = Some (set_pending_sdl_thread_exit true (init_sdl [] [])) ∧
  frame_available (set_pending_sdl_thread_exit true (init_sdl [] [])) = false.
Proof.
  assert (Hrun : run [LDrawFrame; LExitSdlThread; LDrawFrame] (init_sdl [] [])
                 = Some (set_pending_sdl_thread_exit true (init_sdl [] [])))
    by reflexivity.
  assert (Hr : reachable (init_sdl [] [])) by (apply reachable_init; reflexivity).
  destruct (no_hand_off_while_busy [LDrawFrame; LExitSdlThread; LDrawFrame] _ _
              Hr eq_refl eq_refl Hrun) as (_ & Ha & _).
  split; [reflexivity|]. split; [exact Hrun|exact Ha].
Defined.

(** X22. A spurious wake-up is harmless.  If the SDL thread, blocked in a
    reachable state, is woken although nothing was signalled, its loop tests
    the condition again, finds neither a frame nor an exit request, and goes
    back into [SDL_CondWait]: the state is exactly what it was. *)
Theorem spurious_wake_harmless (s : state) :
  reachable s → sdl_pc s = WaitingForFrame →
  result (sdl_thread_wake (set_sdl_pc Woken s)) = Ret StillWaiting ∧
  run [LSpuriousWake; LSdlWake] s = Some s.
Proof.
  intros Hr Hpc.
  destruct (reachable_waiting s Hr Hpc) as (_ & Hfa & Hpe).
  assert (Hfa' : frame_available (set_sdl_pc Woken s) = false) by exact Hfa.
  assert (Hpe' : pending_sdl_thread_exit (set_sdl_pc Woken s) = false) by exact Hpe.
  split.
  - rewrite sdl_thread_wake_unfold, (wait_check_blocks _ Hfa' Hpe'). reflexivity.
  - rewrite run_cons.
    rewrite (proj2 (step_spurious_wake s (set_sdl_pc Woken s)) (conj Hpc eq_refl)).
    cbn [mbind option_bind]. rewrite run_cons.
    rewrite (proj2 (step_sdl_wake (set_sdl_pc Woken s) (tested (set_sdl_pc Woken s)))
               (conj eq_refl eq_refl)).
    cbn [mbind option_bind run]. f_equal.
    unfold tested. rewrite Hfa', Hpe'.
    destruct s as [b0 b1 f b r a d k kl ks p c]; cbn in *. subst c. reflexivity.
Qed.

Lemma spurious_wake_harmless_witness :
  run [LSpuriousWake; LSdlWake] waiting0 = Some waiting0.
Proof.
  refine (proj2 (spurious_wake_harmless waiting0 _ eq_refl)).
  apply (reachable_step (init_sdl [] []) LSdlWait); [|reflexivity].
  apply reachable_init. reflexivity.
Defined.
